(** * arxiv-submission-core: the event-sourced submission aggregate

    A shallow embedding of
      - [arxiv/submission/domain/submission.py] (the aggregate and the
        derived compilation views),
      - [arxiv/submission/domain/event/request.py] (the user-request
        events), and
      - [arxiv/submission/core.py] (the [save] command handler),
    followed by the properties established for them.

    Conventions.  A Python [datetime] is a [Z] (a point on the time line;
    its order is observed, and its text through [isoformat]).  A Python [str] is a [string].  A [dict]
    keyed by [str] is a [gmap string _].  A function that may raise returns
    a [Result]; the exception raised is the payload of [Raise]. *)

From Stdlib Require Import ZArith String Ascii List Sorted Permutation Lia.
From stdpp Require Import base option list sorting gmap strings fin_maps pretty.

Local Open Scope Z_scope.
Local Open Scope string_scope.

(* ===================================================================== *)
(** ** Exceptions and the error monad *)
(* ===================================================================== *)

Module Py.

(** Outcome of a call that may raise an exception of type [E]. *)
Inductive Result (E A : Type) : Type :=
  | Ok (a : A)
  | Raise (e : E).
Arguments Ok {E A} a.
Arguments Raise {E A} e.

#[global] Instance result_ret {E} : MRet (Result E) := fun _ a => Ok a.
#[global] Instance result_bind {E} : MBind (Result E) :=
  fun _ _ f m => match m with Ok a => f a | Raise e => Raise e end.
#[global] Instance result_fmap {E} : FMap (Result E) :=
  fun _ _ f m => match m with Ok a => Ok (f a) | Raise e => Raise e end.

Definition is_ok {E A} (r : Result E A) : bool :=
  match r with Ok _ => true | Raise _ => false end.

Definition raises {E A} (r : Result E A) : Prop :=
  exists e, r = Raise e.

(** The built-in exceptions that the modelled code can run into. *)
Inductive Builtin : Type :=
  | ValueError
  | UnboundLocalError
  | KeyError
  | AttributeError
  | RecursionError.

#[global] Instance Builtin_eq_dec : EqDecision Builtin.
Proof. solve_decision. Defined.

(** [sorted(xs, key=k)]: Python's sort is stable; so is this insertion
    sort, which puts an element in front of the first one whose key is not
    smaller. *)
Fixpoint insert_by {A} (key : A -> Z) (x : A) (l : list A) : list A :=
  match l with
  | [] => [x]
  | y :: l' => if (key x <=? key y)%Z then x :: l else y :: insert_by key x l'
  end.

Definition sorted {A} (key : A -> Z) (l : list A) : list A :=
  foldr (insert_by key) [] l.

(** The order that [sorted] establishes. *)
Definition key_le {A} (key : A -> Z) (a b : A) : Prop :=
  (key a <= key b)%Z.

(** [s.split("::")]: cut at every occurrence of the separator, scanning
    from the left; [cur] is the piece being read. *)
Fixpoint split_dcolon (cur s : string) : list string :=
  match s with
  | EmptyString => [cur]
  | String c1 s1 =>
      match s1 with
      | EmptyString => [cur ++ String c1 EmptyString]
      | String c2 s2 =>
          if (Ascii.eqb c1 ":" && Ascii.eqb c2 ":")%bool
          then cur :: split_dcolon EmptyString s2
          else split_dcolon (cur ++ String c1 EmptyString) s1
      end
  end.

Definition split (s : string) : list string := split_dcolon EmptyString s.

(** [a, b, c = xs]: unpacking raises [ValueError] unless there are exactly
    three values. *)
Definition unpack3 {A} (xs : list A) : Result Builtin (A * A * A) :=
  match xs with
  | [a; b; c] => Ok (a, b, c)
  | _ => Raise ValueError
  end.

End Py.
Export Py.

(* ===================================================================== *)
(** ** domain/submission.py *)
(* ===================================================================== *)

Definition datetime := Z.

(** An agent is observed through its [agent_identifier] only. *)
Record Agent : Type := { agent_identifier : string }.

#[global] Instance Agent_eq_dec : EqDecision Agent.
Proof. solve_decision. Defined.

Record Classification : Type := { category : string }.

#[global] Instance Classification_eq_dec : EqDecision Classification.
Proof. solve_decision. Defined.

(** [ProcessStatus] is declared in [domain/process.py]; these are the
    attributes that [submission.py] reads. *)
Module ProcessStatus.

Inductive Process : Type :=
  | NONE
  | PLAIN_TEXT_EXTRACTION
  | COMPILATION
  | CLASSIFICATION.

Inductive Status : Type :=
  | REQUESTED
  | SUCCEEDED
  | FAILED.

#[global] Instance Process_eq_dec : EqDecision Process.
Proof. solve_decision. Defined.
#[global] Instance Status_eq_dec : EqDecision Status.
Proof. solve_decision. Defined.

Record t : Type := {
  process : Process;
  process_identifier : string;
  status : Status;
  created : datetime
}.

(** [status in finished_states] *)
Definition finished (s : Status) : bool :=
  match s with SUCCEEDED | FAILED => true | REQUESTED => false end.

End ProcessStatus.

Module Compilation.

Inductive Status : Type :=
  | IN_PROGRESS
  | SUCCEEDED
  | FAILED.

#[global] Instance Status_eq_dec : EqDecision Status.
Proof. solve_decision. Defined.

Record t : Type := {
  source_id : string;
  checksum : string;
  output_format : string;
  start_time : datetime;
  end_time : option datetime;
  status : Status
}.

Definition status_map (s : ProcessStatus.Status) : Status :=
  match s with
  | ProcessStatus.REQUESTED => IN_PROGRESS
  | ProcessStatus.SUCCEEDED => SUCCEEDED
  | ProcessStatus.FAILED => FAILED
  end.

(** The records that [from_processes] keeps, in the order it keeps them. *)
Definition compilation_processes (processes : list ProcessStatus.t)
  : list ProcessStatus.t :=
  sorted ProcessStatus.created
    (filter (fun p => ProcessStatus.process p = ProcessStatus.COMPILATION)
            processes).

(** The test of the backward scan: same identifier as [latest], and
    REQUESTED. *)
Definition is_request_of (latest proc : ProcessStatus.t) : bool :=
  (String.eqb (ProcessStatus.process_identifier proc)
              (ProcessStatus.process_identifier latest)
   && bool_decide (ProcessStatus.status proc = ProcessStatus.REQUESTED))%bool.

(** [Compilation.from_processes].  [start_time] is bound only by the
    backward scan (or by the else branch); where the scan finds nothing
    the name is unbound when the constructor call reads it. *)
Definition from_processes (processes : list ProcessStatus.t)
  : Result Builtin (option t) :=
  let processes := compilation_processes processes in
  match last processes with
  | None => Ok None
  | Some latest =>
      '(sid, csum, fmt) ←
        unpack3 (split (ProcessStatus.process_identifier latest));
      '(start, finish) ←
        (if ProcessStatus.finished (ProcessStatus.status latest)
         then match List.find (is_request_of latest) (reverse processes) with
              | Some proc =>
                  Ok (ProcessStatus.created proc,
                      Some (ProcessStatus.created latest))
              | None => Raise UnboundLocalError
              end
         else Ok (ProcessStatus.created latest, None));
      Ok (Some {| source_id := sid;
                  checksum := csum;
                  output_format := fmt;
                  start_time := start;
                  end_time := finish;
                  status := status_map (ProcessStatus.status latest) |})
  end.

End Compilation.

Record SubmissionMetadata : Type := {
  title : option string;
  abstract : option string;
  authors_display : string;
  doi : option string;
  msc_class : option string;
  acm_class : option string;
  report_num : option string;
  journal_ref : option string;
  comments : string
}.

Record Hold : Type := {
  hold_event_id : string;
  hold_creator : Agent;
  hold_created : datetime;
  hold_type : string;
  hold_reason : option string
}.

Module UserRequest.

Definition PENDING : string := "pending".
Definition REJECTED : string := "rejected".
Definition APPROVED : string := "approved".
Definition APPLIED : string := "applied".

(** What the two subclasses add to the base class. *)
Inductive Variant : Type :=
  | WithdrawalRequest (reason_for_withdrawal : option string)
  | CrossListClassificationRequest (classifications : list Classification).

Record t : Type := {
  creator : Agent;
  created : datetime;
  updated : datetime;
  status : string;
  variant : Variant
}.

(** [request.status = s] *)
Definition set_status (s : string) (r : t) : t :=
  {| creator := creator r; created := created r; updated := updated r;
     status := s; variant := variant r |}.

(** [type(self).__name__] *)
Definition request_type (r : t) : string :=
  match variant r with
  | WithdrawalRequest _ => "WithdrawalRequest"
  | CrossListClassificationRequest _ => "CrossListClassificationRequest"
  end.

Definition is_pending (r : t) : bool := String.eqb (status r) PENDING.
Definition is_approved (r : t) : bool := String.eqb (status r) APPROVED.
Definition is_applied (r : t) : bool := String.eqb (status r) APPLIED.
Definition is_rejected (r : t) : bool := String.eqb (status r) REJECTED.
Definition is_active (r : t) : bool := (is_pending r || is_approved r)%bool.

End UserRequest.

Module Submission.

Definition WORKING : string := "working".
Definition SUBMITTED : string := "submitted".
Definition ON_HOLD : string := "hold".
Definition SCHEDULED : string := "scheduled".
Definition PUBLISHED : string := "published".
Definition ERROR : string := "error".
Definition DELETED : string := "deleted".
Definition WITHDRAWN : string := "withdrawn".

(** The fields of the dataclass whose types are declared in
    [submission.py] or are plain values.  (The remaining ones, such as
    [proposals], [annotations] and [flags], hold values of classes
    declared elsewhere; none of the operations below reads or writes
    them.) *)
Record t : Type := {
  creator : Agent;
  owner : Agent;
  created : option datetime;
  updated : option datetime;
  primary_classification : option Classification;
  submission_id : option Z;
  metadata : SubmissionMetadata;
  secondary_classification : list Classification;
  status : string;
  arxiv_id : option string;
  version : Z;
  reason_for_withdrawal : option string;
  user_requests : gmap string UserRequest.t;
  processes : list ProcessStatus.t;
  holds : gmap string Hold
}.

Definition set_user_requests (m : gmap string UserRequest.t) (s : t) : t :=
  {| creator := creator s; owner := owner s; created := created s;
     updated := updated s;
     primary_classification := primary_classification s;
     submission_id := submission_id s; metadata := metadata s;
     secondary_classification := secondary_classification s;
     status := status s; arxiv_id := arxiv_id s; version := version s;
     reason_for_withdrawal := reason_for_withdrawal s;
     user_requests := m;
     processes := processes s; holds := holds s |}.

(** [x in [a, b]] on strings *)
Definition str_in (x : string) (l : list string) : bool :=
  existsb (String.eqb x) l.

Definition active (s : t) : bool :=
  negb (str_in (status s) [DELETED; PUBLISHED]).

Definition published (s : t) : bool := String.eqb (status s) PUBLISHED.

Definition finalized (s : t) : bool :=
  negb (str_in (status s) [WORKING; DELETED]).

Definition deleted (s : t) : bool := String.eqb (status s) DELETED.

Definition secondary_categories (s : t) : list string :=
  category <$> secondary_classification s.

Definition is_on_hold (s : t) : bool :=
  ((0 <? size (holds s))%nat || String.eqb (status s) ON_HOLD)%bool.

Definition latest_compilation (s : t)
  : Result Builtin (option Compilation.t) :=
  Compilation.from_processes (processes s).

(** The body of the generator [get_compilations]: [on_deck] is the run
    being collected, [ps] what is left of the scan.  The result lists the
    values yielded; an exception raised while a value is computed ends
    the iteration. *)
Fixpoint get_compilations_from (on_deck ps : list ProcessStatus.t)
  : Result Builtin (list (option Compilation.t)) :=
  match ps with
  | [] =>
      match on_deck with
      | [] => Ok []
      | _ => c ← Compilation.from_processes on_deck; Ok [c]
      end
  | process :: rest =>
      if negb (bool_decide (ProcessStatus.process process
                            = ProcessStatus.COMPILATION))
      then get_compilations_from on_deck rest
      else
        match last on_deck with
        | Some top =>
            let finished :=
              ProcessStatus.finished (ProcessStatus.status top) in
            let new_process :=
              negb (String.eqb (ProcessStatus.process_identifier process)
                               (ProcessStatus.process_identifier top)) in
            if (finished || new_process)%bool
            then c ← Compilation.from_processes on_deck;
                 cs ← get_compilations_from [process] rest;
                 Ok (c :: cs)
            else get_compilations_from (on_deck ++ [process])%list rest
        | None => get_compilations_from (on_deck ++ [process])%list rest
        end
  end.

Definition get_compilations (s : t)
  : Result Builtin (list (option Compilation.t)) :=
  get_compilations_from [] (sorted ProcessStatus.created (processes s)).

Definition compilations (s : t)
  : Result Builtin (list (option Compilation.t)) :=
  get_compilations s.

Definition user_request_values (s : t) : list UserRequest.t :=
  snd <$> map_to_list (user_requests s).

Definition active_user_requests (s : t) : list UserRequest.t :=
  List.filter UserRequest.is_active (user_request_values s).

Definition has_active_requests (s : t) : bool :=
  (0 <? length (active_user_requests s))%nat.

End Submission.

(* ===================================================================== *)
(** ** Events, exceptions and the external collaborators *)
(* ===================================================================== *)

(** The concrete event classes with their payload fields:
    [ApproveRequest], [RejectRequest], [ApplyRequest], [RequestCrossList]
    and [RequestWithdrawal] of [request.py], and [CreateSubmission], which
    [save] tests for. *)
Inductive Command : Type :=
  | CreateSubmission
  | ApproveRequest (request_id : option string)
  | RejectRequest (request_id : option string)
  | ApplyRequest (request_id : option string)
  | RequestCrossList (categories : list string)
  | RequestWithdrawal (reason : string).

#[global] Instance Command_eq_dec : EqDecision Command.
Proof. solve_decision. Defined.

Module Event.

(** The attributes of the base class [Event] that [request.py] and
    [core.py] use. *)
Record t : Type := {
  creator : Agent;
  created : datetime;
  submission_id : option Z;
  committed : bool;
  command : Command
}.

#[global] Instance t_eq_dec : EqDecision t.
Proof. solve_decision. Defined.

(** [type(self).__name__] *)
Definition event_type (e : t) : string :=
  match command e with
  | CreateSubmission => "CreateSubmission"
  | ApproveRequest _ => "ApproveRequest"
  | RejectRequest _ => "RejectRequest"
  | ApplyRequest _ => "ApplyRequest"
  | RequestCrossList _ => "RequestCrossList"
  | RequestWithdrawal _ => "RequestWithdrawal"
  end.

(** [event.submission_id = submission_id] *)
Definition set_submission_id (sid : option Z) (e : t) : t :=
  {| creator := creator e; created := created e; submission_id := sid;
     committed := committed e; command := command e |}.

(** [event.committed = True] *)
Definition set_committed (e : t) : t :=
  {| creator := creator e; created := created e;
     submission_id := submission_id e; committed := true;
     command := command e |}.

(** [isinstance(event, CreateSubmission)] *)
Definition is_create (e : t) : bool :=
  match command e with CreateSubmission => true | _ => false end.

End Event.

(** [arxiv.submission.exceptions], next to the built-in exceptions. *)
Inductive Exception : Type :=
  | Python (b : Builtin)
  | InvalidEvent (event : Event.t) (reason : string)
  | InvalidStack
  | NoSuchSubmission
  | SaveError.

(** The event log kept by the [classic] service: one entry per stored
    event, with the state the event led to. *)
Definition Store : Type := list (Event.t * Submission.t).

(** What the modelled code takes from outside: library functions, the
    taxonomy, CPython's hashing and set iteration, the rule engine and the
    [classic] service. *)
Record Externals : Type := {
  (** [hashlib.sha1(...).hexdigest()] *)
  sha1_hexdigest : string -> string;
  (** [datetime.isoformat()] *)
  isoformat : datetime -> string;
  (** membership in [arxiv.taxonomy] *)
  taxonomy : string -> bool;
  (** the digest behind [Event.event_id] *)
  event_digest : string -> Agent -> Command -> datetime -> string;
  (** the built-in [hash] on [str] *)
  str_hash : string -> Z;
  (** the order in which a [set] holding the given members (listed in
      insertion order) is iterated *)
  set_iter : list Event.t -> list Event.t;
  (** the rule engine: the events that follow from an event, given the
      states before and after it *)
  rules : Event.t -> option Submission.t -> Submission.t -> list Event.t;
  (** [classic.get_submission]: state and history, read from the log *)
  get_submission :
    Z -> Store -> Result Exception (Submission.t * list Event.t);
  (** the reading of the clock, [get_tzaware_utc_now()] *)
  utc_now : datetime;
  (** the interpreter's recursion limit *)
  recursion_limit : nat
}.

(** A set may be iterated in any order, but it yields each member once. *)
Definition iterates_members (x : Externals) : Prop :=
  forall l, set_iter x l ≡ₚ l.

Section Events.

Variable x : Externals.

(** [UserRequest.generate_request_id].  The code digests
    [created.isoformat()], a text that shows the UTC offset of the datetime
    besides the instant; [isoformat] here is that text for the datetimes of
    the run, which [get_tzaware_utc_now] gives in one offset. *)
Definition generate_request_id (created : datetime) (request_type : string)
    (creator : Agent) : string :=
  sha1_hexdigest x
    (isoformat x created ++ ":" ++ request_type ++ ":"
     ++ agent_identifier creator).

(** [UserRequest.request_id] *)
Definition request_id_of (r : UserRequest.t) : string :=
  generate_request_id (UserRequest.created r) (UserRequest.request_type r)
                      (UserRequest.creator r).

(** Modelled from the spec: [Event.event_id] ([domain/event/event.py] is
    not among the sources).  "An event's identifier is a pure function of
    its semantically meaningful fields (type, creator, payload,
    timestamp)". *)
Definition event_id (e : Event.t) : string :=
  event_digest x (Event.event_type e) (Event.creator e) (Event.command e)
               (Event.created e).

(** [__hash__]: "Use event ID as object hash." *)
Definition event_hash (e : Event.t) : Z := str_hash x (event_id e).

(** [__eq__]: [hash(self) == hash(other)] *)
Definition event_eq (e1 e2 : Event.t) : bool :=
  (event_hash e1 =? event_hash e2)%Z.

(** *** validators *)

(** Modelled from the spec: [validators.no_active_requests]
    ([domain/event/validators.py] is not among the sources).  Fails when a
    request is currently active (PENDING or APPROVED). *)
Definition no_active_requests (e : Event.t) (s : Submission.t)
  : Result Exception unit :=
  if Submission.has_active_requests s
  then Raise (InvalidEvent e "Must not have active requests")
  else Ok tt.

(** Modelled from the spec: [validators.must_be_a_valid_category].  Fails
    unless the category exists in the taxonomy. *)
Definition must_be_a_valid_category (e : Event.t) (c : string)
    (s : Submission.t) : Result Exception unit :=
  if taxonomy x c then Ok tt
  else Raise (InvalidEvent e "Not a valid category").

(** Modelled from the spec: [validators.cannot_be_primary].  Fails when the
    category is the primary classification. *)
Definition cannot_be_primary (e : Event.t) (c : string) (s : Submission.t)
  : Result Exception unit :=
  match Submission.primary_classification s with
  | Some p =>
      if String.eqb (category p) c
      then Raise (InvalidEvent e "The same category cannot be used as both the primary and a secondary category")
      else Ok tt
  | None => Ok tt
  end.

(** Modelled from the spec: [validators.cannot_be_secondary].  Fails when
    the category is already a secondary classification. *)
Definition cannot_be_secondary (e : Event.t) (c : string) (s : Submission.t)
  : Result Exception unit :=
  if Submission.str_in c (Submission.secondary_categories s)
  then Raise (InvalidEvent e "Category already added as a secondary")
  else Ok tt.

(** The loop of [RequestCrossList.validate] over the categories. *)
Fixpoint validate_categories (e : Event.t) (cs : list string)
    (s : Submission.t) : Result Exception unit :=
  match cs with
  | [] => Ok tt
  | c :: cs' =>
      must_be_a_valid_category e c s ;;
      cannot_be_primary e c s ;;
      cannot_be_secondary e c s ;;
      validate_categories e cs' s
  end.

(** *** validate *)

(** [self.request_id not in submission.user_requests]; the default
    [request_id], [None], is never a key. *)
Definition has_request (rid : option string) (s : Submission.t) : bool :=
  match rid with
  | Some r => bool_decide (is_Some (Submission.user_requests s !! r))
  | None => false
  end.

Definition validate_request_exists (e : Event.t) (rid : option string)
    (s : Submission.t) : Result Exception unit :=
  if negb (has_request rid s)
  then Raise (InvalidEvent e "No such request")
  else Ok tt.

Definition MAX_LENGTH : nat := 400.

(** Modelled from the spec: [CreateSubmission.validate]
    ([domain/event/event.py] is not among the sources).  The spec has
    creation "require no existing submission"; it also has [save] load
    the prior events, creation included, and fold them over the loaded
    state, as core.py does at lines 144 to 160, and the tests save onto a
    created submission and get a result (tests/examples/test_09).  Those
    calls validate the creation against an existing submission, so the
    validation accepts every state. *)
Definition validate_create (e : Event.t) (submission : option Submission.t)
  : Result Exception unit :=
  Ok tt.

(** [Event.validate], by event class.  The request events read attributes
    of [submission], which fails on [None]. *)
Definition validate (e : Event.t) (submission : option Submission.t)
  : Result Exception unit :=
  match Event.command e, submission with
  | CreateSubmission, _ => validate_create e submission
  | _, None => Raise (Python AttributeError)
  | ApproveRequest rid, Some s => validate_request_exists e rid s
  | RejectRequest rid, Some s => validate_request_exists e rid s
  | ApplyRequest rid, Some s => validate_request_exists e rid s
  | RequestCrossList cats, Some s =>
      no_active_requests e s ;;
      (if negb (Submission.published s)
       then Raise (InvalidEvent e "Submission must already be published")
       else Ok tt) ;;
      validate_categories e cats s
  | RequestWithdrawal reason, Some s =>
      no_active_requests e s ;;
      (if String.eqb reason ""
       then Raise (InvalidEvent e "Provide a reason for the withdrawal")
       else Ok tt) ;;
      (if (MAX_LENGTH <? String.length reason)%nat
       then Raise (InvalidEvent e "Reason must be 400 characters or less")
       else Ok tt) ;;
      (if negb (Submission.published s)
       then Raise (InvalidEvent e "Submission must already be published")
       else Ok tt)
  end.

(** *** project *)

(** [submission.user_requests[self.request_id].status = status] *)
Definition project_status (rid : option string) (status : string)
    (s : Submission.t) : Result Exception Submission.t :=
  match rid with
  | Some r =>
      match Submission.user_requests s !! r with
      | Some req =>
          Ok (Submission.set_user_requests
                (<[r := UserRequest.set_status status req]>
                   (Submission.user_requests s)) s)
      | None => Raise (Python KeyError)
      end
  | None => Raise (Python KeyError)
  end.

(** [submission.user_requests[request.request_id] = request] *)
Definition add_request (req : UserRequest.t) (s : Submission.t)
  : Submission.t :=
  Submission.set_user_requests
    (<[request_id_of req := req]> (Submission.user_requests s)) s.

(** Modelled from the spec: the state that [CreateSubmission] projects
    ("produces the initial aggregate with given creator/owner"); the other
    fields take the defaults of the dataclass. *)
Definition initial_submission (e : Event.t) : Submission.t :=
  {| Submission.creator := Event.creator e;
     Submission.owner := Event.creator e;
     Submission.created := Some (Event.created e);
     Submission.updated := None;
     Submission.primary_classification := None;
     Submission.submission_id := None;
     Submission.metadata :=
       {| title := None; abstract := None; authors_display := "";
          doi := None; msc_class := None; acm_class := None;
          report_num := None; journal_ref := None; comments := "" |};
     Submission.secondary_classification := [];
     Submission.status := Submission.WORKING;
     Submission.arxiv_id := None;
     Submission.version := 1;
     Submission.reason_for_withdrawal := None;
     Submission.user_requests := ∅;
     Submission.processes := [];
     Submission.holds := ∅ |}.

(** [Event.project], by event class. *)
Definition project (e : Event.t) (submission : option Submission.t)
  : Result Exception Submission.t :=
  match Event.command e, submission with
  | CreateSubmission, _ => Ok (initial_submission e)
  | _, None => Raise (Python AttributeError)
  | ApproveRequest rid, Some s => project_status rid UserRequest.APPROVED s
  | RejectRequest rid, Some s => project_status rid UserRequest.REJECTED s
  | ApplyRequest rid, Some s => project_status rid UserRequest.APPLIED s
  | RequestCrossList cats, Some s =>
      Ok (add_request
            {| UserRequest.creator := Event.creator e;
               UserRequest.created := Event.created e;
               UserRequest.updated := utc_now x;
               UserRequest.status := UserRequest.PENDING;
               UserRequest.variant :=
                 UserRequest.CrossListClassificationRequest
                   ((fun c => {| category := c |}) <$> cats) |} s)
  | RequestWithdrawal reason, Some s =>
      Ok (add_request
            {| UserRequest.creator := Event.creator e;
               UserRequest.created := Event.created e;
               UserRequest.updated := Event.created e;
               UserRequest.status := UserRequest.PENDING;
               UserRequest.variant :=
                 UserRequest.WithdrawalRequest (Some reason) |} s)
  end.

(** Modelled from the spec: [Event.apply] ("validate against current
    projected state, project into new state"). *)
Definition apply (e : Event.t) (submission : option Submission.t)
  : Result Exception Submission.t :=
  validate e submission ;; project e submission.

End Events.

(** The three events that settle a request, with the status each gives. *)
Definition settles (e : Event.t) (r : string) (status : string) : Prop :=
  (Event.command e = ApproveRequest (Some r)
   /\ status = UserRequest.APPROVED)
  \/ (Event.command e = RejectRequest (Some r)
      /\ status = UserRequest.REJECTED)
  \/ (Event.command e = ApplyRequest (Some r)
      /\ status = UserRequest.APPLIED).

(* ===================================================================== *)
(** ** core.py *)
(* ===================================================================== *)

Section Core.

Variable x : Externals.

(** *** Sets of events

    A [set] is kept as the list of its members in insertion order.  An
    element is a member when some member has the same hash and compares
    equal; for events both tests are [event_eq]. *)

Definition set_add (s : list Event.t) (e : Event.t) : list Event.t :=
  if existsb (event_eq x e) s then s else (s ++ [e])%list.

(** [set(events)] *)
Definition set_of (events : list Event.t) : list Event.t :=
  foldl set_add [] events.

(** [a | b]: a copy of [a], to which the members of [b] are added. *)
Definition set_union (a b : list Event.t) : list Event.t :=
  foldl set_add a b.

(** [sorted(set(prior) | set(events), key=lambda e: e.created)] *)
Definition merge_events (prior events : list Event.t) : list Event.t :=
  sorted Event.created (set_iter x (set_union (set_of prior) (set_of events))).

(** *** Committing an event *)

(** Modelled from the spec: [classic.store_event] (the [classic] service
    is not among the sources).  "Event store: append(event,
    resulting_state)". *)
Definition store_event (e : Event.t) (after : Submission.t) (st : Store)
  : Store :=
  (st ++ [(e, after)])%list.

(** Outcome of a command that works on the log: the log is kept whether
    the command returns or raises. *)
Definition Stored (A : Type) : Type := (Result Exception A * Store)%type.

(** Modelled from the spec: the way consequent events are handled by
    [Event.commit].  "Consequent events emitted by the Rule Engine re-enter
    the same validate, project, persist, rule-evaluate pipeline
    (recursively)"; one that fails validation is an [InvalidStack].
    [commit_rec] is the recursive call. *)
Fixpoint commit_consequents
    (commit_rec : Event.t -> option Submission.t -> Submission.t ->
                  Store -> Stored (Submission.t * list Event.t))
    (cs : list Event.t) (cur : Submission.t) (st : Store)
  : Stored (Submission.t * list Event.t) :=
  match cs with
  | [] => (Ok (cur, []), st)
  | c :: cs' =>
      match apply x c (Some cur) with
      | Raise (InvalidEvent _ _) => (Raise InvalidStack, st)
      | Raise err => (Raise err, st)
      | Ok after_c =>
          match commit_rec c (Some cur) after_c st with
          | (Raise err, st') => (Raise err, st')
          | (Ok (cur', more), st') =>
              match commit_consequents commit_rec cs' cur' st' with
              | (Raise err, st'') => (Raise err, st'')
              | (Ok (final, rest), st'') =>
                  (Ok (final, (Event.set_committed c :: more ++ rest)%list), st'')
              end
          end
      end
  end.

(** Modelled from the spec: [Event.commit(store)].  "Persists the event
    and the latest projected state together, and invokes the Rule Engine",
    which is "invoked once per successfully projected event, after it is
    marked committed".  Returns the state after the consequent events, and
    these events.  [depth] is the recursion depth that is left. *)
Fixpoint commit (depth : nat) (e : Event.t) (before : option Submission.t)
    (after : Submission.t) (st : Store)
  : Stored (Submission.t * list Event.t) :=
  match depth with
  | O => (Raise (Python RecursionError), st)
  | S depth' =>
      let e' := Event.set_committed e in
      commit_consequents (commit depth') (rules x e' before after) after
                         (store_event e' after st)
  end.

(** *** save *)

(** The part of [save] before the loop: the state and history to start
    from.  [first] is [events[0]]. *)
Definition starting_point (first : Event.t) (submission_id : option Z)
    (st : Store) : Result Exception (option Submission.t * list Event.t) :=
  match submission_id with
  | Some sid =>
      '(before, prior) ← get_submission x sid st; Ok (Some before, prior)
  | None =>
      if (bool_decide (Event.submission_id first = None)
          && negb (Event.is_create first))%bool
      then Raise NoSuchSubmission
      else Ok (None, [])
  end.

(** "Fill in event IDs, if they are missing." *)
Definition fill_submission_id (submission_id : option Z) (e : Event.t)
  : Event.t :=
  match Event.submission_id e, submission_id with
  | None, Some sid => Event.set_submission_id (Some sid) e
  | _, _ => e
  end.

(** The loop of [save] over the ordered events.  [before] is the state
    reached, [applied] the events applied so far. *)
Fixpoint save_loop (submission_id : option Z) (events : list Event.t)
    (before : option Submission.t) (applied : list Event.t) (st : Store)
  : Stored (option Submission.t * list Event.t) :=
  match events with
  | [] => (Ok (before, applied), st)
  | event :: rest =>
      let event := fill_submission_id submission_id event in
      match apply x event before with
      | Raise err => (Raise err, st)
      | Ok after =>
          if Event.committed event
          then save_loop submission_id rest (Some after)
                         (applied ++ [event])%list st
          else
            match commit (recursion_limit x) event before after st with
            | (Raise err, st') => (Raise err, st')
            | (Ok (after', consequent_events), st') =>
                save_loop submission_id rest (Some after')
                  (applied ++ [Event.set_committed event]
                   ++ consequent_events)%list st'
            end
      end
  end.

(** [save]: the events passed, and the keyword argument [submission_id]. *)
Definition save (events : list Event.t) (submission_id : option Z)
    (st : Store) : Stored (Submission.t * list Event.t) :=
  match events with
  | [] => (Raise (Python ValueError), st)
  | first :: _ =>
      match starting_point first submission_id st with
      | Raise err => (Raise err, st)
      | Ok (before, prior) =>
          match save_loop submission_id (merge_events prior events)
                          before [] st with
          | (Raise err, st') => (Raise err, st')
          | (Ok (Some after, applied), st') =>
              (Ok (after,
                   sorted Event.created (set_iter x (set_of applied))), st')
          | (Ok (None, _), st') => (Raise (Python UnboundLocalError), st')
          end
      end
  end.

End Core.

(* ===================================================================== *)
(** ** Concrete values for the examples *)
(* ===================================================================== *)

Module Sample.

(** *** Process records *)

Definition record (pid : string) (st : ProcessStatus.Status) (t : datetime)
  : ProcessStatus.t :=
  {| ProcessStatus.process := ProcessStatus.COMPILATION;
     ProcessStatus.process_identifier := pid;
     ProcessStatus.status := st;
     ProcessStatus.created := t |}.

Definition pid_x : string := "1234::asdf12345zxcv::pdf".
Definition pid_y : string := "1234::qwer67890uiop::pdf".

Definition jane : Agent := {| agent_identifier := "1234" |}.
Definition system : Agent := {| agent_identifier := "system" |}.

Definition bare (status : string) (requests : gmap string UserRequest.t)
    (procs : list ProcessStatus.t) (holds : gmap string Hold)
  : Submission.t :=
  {| Submission.creator := jane;
     Submission.owner := jane;
     Submission.created := Some 1;
     Submission.updated := None;
     Submission.primary_classification := Some {| category := "cs.DL" |};
     Submission.submission_id := Some 1;
     Submission.metadata :=
       {| title := Some "the best title"; abstract := None;
          authors_display := ""; doi := None; msc_class := None;
          acm_class := None; report_num := None; journal_ref := None;
          comments := "" |};
     Submission.secondary_classification := [];
     Submission.status := status;
     Submission.arxiv_id := None;
     Submission.version := 1;
     Submission.reason_for_withdrawal := None;
     Submission.user_requests := requests;
     Submission.processes := procs;
     Submission.holds := holds |}.

(** REQUESTED, REQUESTED, SUCCEEDED for one identifier, then REQUESTED,
    FAILED for another. *)
Definition two_attempts : list ProcessStatus.t :=
  [ record pid_x ProcessStatus.REQUESTED 1;
    record pid_x ProcessStatus.REQUESTED 2;
    record pid_x ProcessStatus.SUCCEEDED 3;
    record pid_y ProcessStatus.REQUESTED 4;
    record pid_y ProcessStatus.FAILED 5 ].

(** The same records out of order, among records of another process. *)
Definition shuffled_attempts : list ProcessStatus.t :=
  [ record pid_y ProcessStatus.FAILED 5;
    {| ProcessStatus.process := ProcessStatus.PLAIN_TEXT_EXTRACTION;
       ProcessStatus.process_identifier := pid_x;
       ProcessStatus.status := ProcessStatus.REQUESTED;
       ProcessStatus.created := 3 |};
    record pid_x ProcessStatus.REQUESTED 2;
    record pid_x ProcessStatus.SUCCEEDED 3;
    record pid_y ProcessStatus.REQUESTED 4;
    record pid_x ProcessStatus.REQUESTED 1 ].

(** A result without the request that led to it. *)
Definition orphan_result : list ProcessStatus.t :=
  [ record pid_y ProcessStatus.REQUESTED 1;
    record pid_x ProcessStatus.SUCCEEDED 2 ].

Definition extraction_only : list ProcessStatus.t :=
  [ {| ProcessStatus.process := ProcessStatus.PLAIN_TEXT_EXTRACTION;
       ProcessStatus.process_identifier := pid_x;
       ProcessStatus.status := ProcessStatus.SUCCEEDED;
       ProcessStatus.created := 1 |} ].

(** *** Requests *)

Definition withdrawal (status : string) (t : datetime) : UserRequest.t :=
  {| UserRequest.creator := jane;
     UserRequest.created := t;
     UserRequest.updated := t;
     UserRequest.status := status;
     UserRequest.variant := UserRequest.WithdrawalRequest (Some "oops") |}.

Definition hold : Hold :=
  {| hold_event_id := "e1"; hold_creator := system; hold_created := 2;
     hold_type := "source_oversize"; hold_reason := None |}.

(** *** External collaborators *)

Definition payload_repr (c : Command) : string :=
  match c with
  | CreateSubmission => ""
  | ApproveRequest r | RejectRequest r | ApplyRequest r => default "None" r
  | RequestCrossList cs => String.concat "," cs
  | RequestWithdrawal reason => reason
  end.

Fixpoint poly_hash (acc : Z) (s : string) : Z :=
  match s with
  | EmptyString => acc
  | String c s' => poly_hash ((acc * 31 + Z.of_nat (nat_of_ascii c))
                              mod 18446744073709551616) s'
  end.

(** A rule engine with one rule: an approved request is applied by the
    system one tick later. *)
Definition apply_approved (e : Event.t) (before : option Submission.t)
    (after : Submission.t) : list Event.t :=
  match Event.command e with
  | ApproveRequest rid =>
      [ {| Event.creator := system;
           Event.created := Event.created e + 1;
           Event.submission_id := Event.submission_id e;
           Event.committed := false;
           Event.command := ApplyRequest rid |} ]
  | _ => []
  end.

Definition event (who : Agent) (t : datetime) (committed : bool)
    (c : Command) : Event.t :=
  {| Event.creator := who; Event.created := t; Event.submission_id := None;
     Event.committed := committed; Event.command := c |}.

(** The submission that the sample log holds under id 1: published, with
    a rejected request ["r0"] and a pending request ["r1"]. *)
Definition stored_submission : Submission.t :=
  bare Submission.PUBLISHED
       (<["r0" := withdrawal UserRequest.REJECTED 3]>
          (<["r1" := withdrawal UserRequest.PENDING 6]> ∅))
       [] ∅.

Definition stored_history : list Event.t :=
  [ Event.set_submission_id (Some 1)
      (event system 5 true (RejectRequest (Some "r0"))) ].

Definition externals (iter : list Event.t -> list Event.t) : Externals :=
  {| sha1_hexdigest := fun s => "sha1(" ++ s ++ ")";
     isoformat := fun t => pretty t;
     taxonomy := fun c => Submission.str_in c ["cs.DL"; "cs.IR"; "cs.AI"];
     event_digest := fun ty who c t =>
       ty ++ ":" ++ agent_identifier who ++ ":" ++ payload_repr c ++ ":"
       ++ pretty t;
     str_hash := poly_hash 7;
     set_iter := iter;
     rules := apply_approved;
     get_submission := fun sid _ =>
       if (sid =? 1)%Z then Ok (stored_submission, stored_history)
       else Raise NoSuchSubmission;
     utc_now := 100;
     recursion_limit := 1000 |}.

(** A creation followed by the approval of a request that is not there. *)
Definition creation_then_invalid : list Event.t :=
  [ event jane 1 false CreateSubmission;
    event jane 2 false (ApproveRequest (Some "nope")) ].

(** An approval of the pending request, then one of a request that is not
    there. *)
Definition approval_then_invalid : list Event.t :=
  [ event system 10 false (ApproveRequest (Some "r1"));
    event system 20 false (ApproveRequest (Some "nope")) ].

(** Two events of the same time. *)
Definition approval_at_7 : Event.t :=
  event jane 7 false (ApproveRequest (Some "r1")).
Definition rejection_at_7 : Event.t :=
  event jane 7 false (RejectRequest (Some "r1")).

(** A reason of [n] characters. *)
Fixpoint reason_of_length (n : nat) : string :=
  match n with
  | O => EmptyString
  | S n' => String "x" (reason_of_length n')
  end.

(** Sets iterated in insertion order, and in the opposite order. *)
Definition world : Externals := externals (fun l => l).
Definition world_rev : Externals := externals (@reverse Event.t).

End Sample.

(* ===================================================================== *)
(** ** Further parts of domain/submission.py and request.py *)
(* ===================================================================== *)

(** [c in s] for a character [c] *)
Fixpoint has_char (c : ascii) (s : string) : bool :=
  match s with
  | EmptyString => false
  | String c' s' => (Ascii.eqb c' c || has_char c s')%bool
  end.

Module Author.

Record t : Type := {
  order : Z;
  forename : string;
  surname : string;
  initials : string;
  affiliation : string;
  email : string;
  identifier : option string;
  display : option string
}.

(** [name.replace('  ', ' ')]: the occurrences are taken from the left and
    do not overlap. *)
Fixpoint replace_double_space (s : string) : string :=
  match s with
  | EmptyString => EmptyString
  | String c1 s1 =>
      match s1 with
      | EmptyString => String c1 EmptyString
      | String c2 s2 =>
          if (Ascii.eqb c1 " " && Ascii.eqb c2 " ")%bool
          then String " " (replace_double_space s2)
          else String c1 (replace_double_space s1)
      end
  end.

(** The property [canonical]. *)
Definition canonical (a : t) : string :=
  let name :=
    replace_double_space
      (forename a ++ " " ++ initials a ++ " " ++ surname a) in
  if String.eqb (affiliation a) "" then name
  else name ++ " (" ++ affiliation a ++ ")".

(** The truth value of an optional string: [None] and [""] are false. *)
Definition given (o : option string) : bool :=
  match o with
  | Some s => negb (String.eqb s "")
  | None => false
  end.

(** [_generate_identifier], with the digest taken as [sha1]. *)
Definition generate_identifier (sha1 : string -> string) (a : t) : string :=
  sha1 (String.concat ":" [forename a; surname a; initials a;
                           affiliation a; email a]).

(** [__post_init__] *)
Definition post_init (sha1 : string -> string) (a : t) : t :=
  {| order := order a; forename := forename a; surname := surname a;
     initials := initials a; affiliation := affiliation a;
     email := email a;
     identifier := if given (identifier a) then identifier a
                   else Some (generate_identifier sha1 a);
     display := if given (display a) then display a
                else Some (canonical a) |}.

End Author.

(** The property [Compilation.identifier]. *)
Definition compilation_identifier (c : Compilation.t) : string :=
  Compilation.source_id c ++ "::" ++ Compilation.checksum c ++ "::"
  ++ Compilation.output_format c.

(** The property [CrossListClassificationRequest.categories]; a request of
    the other class has no such attribute. *)
Definition request_categories (r : UserRequest.t)
  : Result Builtin (list string) :=
  match UserRequest.variant r with
  | UserRequest.CrossListClassificationRequest cls => Ok (category <$> cls)
  | UserRequest.WithdrawalRequest _ => Raise AttributeError
  end.

(** The request lists of [Submission], by status. *)
Definition pending_user_requests (s : Submission.t) : list UserRequest.t :=
  List.filter UserRequest.is_pending (Submission.user_request_values s).

Definition rejected_user_requests (s : Submission.t) : list UserRequest.t :=
  List.filter UserRequest.is_rejected (Submission.user_request_values s).

Definition approved_user_requests (s : Submission.t) : list UserRequest.t :=
  List.filter UserRequest.is_approved (Submission.user_request_values s).

Definition applied_user_requests (s : Submission.t) : list UserRequest.t :=
  List.filter UserRequest.is_applied (Submission.user_request_values s).

(** [Submission.get_user_request]: a missing key raises [KeyError]. *)
Definition get_user_request (s : Submission.t) (request_id : string)
  : Result Builtin UserRequest.t :=
  match Submission.user_requests s !! request_id with
  | Some r => Ok r
  | None => Raise KeyError
  end.

(** Every request is filed under its own [request_id]. *)
Definition keyed_by_request_id (x : Externals) (s : Submission.t) : Prop :=
  forall r req,
    Submission.user_requests s !! r = Some req -> r = request_id_of x req.

(** No two members of a set of events compare equal. *)
Definition distinct (x : Externals) (s : list Event.t) : Prop :=
  forall a b, a ∈ s -> b ∈ s -> event_eq x a b = true -> a = b.

(** The two events that file a request, with the request each files. *)
Definition files (e : Event.t) (req : UserRequest.t) (x : Externals)
  : Prop :=
  (exists reason,
     Event.command e = RequestWithdrawal reason
     /\ req = {| UserRequest.creator := Event.creator e;
                 UserRequest.created := Event.created e;
                 UserRequest.updated := Event.created e;
                 UserRequest.status := UserRequest.PENDING;
                 UserRequest.variant :=
                   UserRequest.WithdrawalRequest (Some reason) |})
  \/ (exists cats,
        Event.command e = RequestCrossList cats
        /\ req = {| UserRequest.creator := Event.creator e;
                    UserRequest.created := Event.created e;
                    UserRequest.updated := utc_now x;
                    UserRequest.status := UserRequest.PENDING;
                    UserRequest.variant :=
                      UserRequest.CrossListClassificationRequest
                        ((fun c => {| category := c |}) <$> cats) |}).

Module Case.

Definition paulson : Author.t :=
  {| Author.order := 0; Author.forename := "Robert";
     Author.surname := "Paulson"; Author.initials := "";
     Author.affiliation := "FC"; Author.email := "";
     Author.identifier := None; Author.display := None |}.

(** Two results in a row for one identifier. *)
Definition repeated_result : list ProcessStatus.t :=
  [ Sample.record Sample.pid_x ProcessStatus.REQUESTED 1;
    Sample.record Sample.pid_x ProcessStatus.SUCCEEDED 2;
    Sample.record Sample.pid_x ProcessStatus.SUCCEEDED 3 ].

Definition withdrawal_event : Event.t :=
  Sample.event Sample.jane 8 false (RequestWithdrawal "oops").

Definition cross_list_event : Event.t :=
  Sample.event Sample.jane 9 false (RequestCrossList ["cs.IR"; "cs.AI"]).

(** A published submission without requests. *)
Definition published : Submission.t :=
  Sample.bare Submission.PUBLISHED ∅ [] ∅.

(** A published submission with a rejected withdrawal request of time 8,
    filed under its identifier. *)
Definition rejected_withdrawal : UserRequest.t :=
  {| UserRequest.creator := Sample.jane;
     UserRequest.created := 8;
     UserRequest.updated := 9;
     UserRequest.status := UserRequest.REJECTED;
     UserRequest.variant :=
       UserRequest.WithdrawalRequest (Some "typo") |}.

Definition with_rejected_withdrawal : Submission.t :=
  Sample.bare Submission.PUBLISHED
    {[ "sha1(8:WithdrawalRequest:1234)" := rejected_withdrawal ]} [] ∅.

(** A submission as the log holds it after its creation: the creation
    event, committed, and the state it led to, under id 1. *)
Definition creation : Event.t :=
  Event.set_submission_id (Some 1)
    (Sample.event Sample.jane 1 true CreateSubmission).

Definition created_submission : Submission.t :=
  {| Submission.creator := Sample.jane;
     Submission.owner := Sample.jane;
     Submission.created := Some 1;
     Submission.updated := None;
     Submission.primary_classification := None;
     Submission.submission_id := Some 1;
     Submission.metadata :=
       {| title := None; abstract := None; authors_display := "";
          doi := None; msc_class := None; acm_class := None;
          report_num := None; journal_ref := None; comments := "" |};
     Submission.secondary_classification := [];
     Submission.status := Submission.WORKING;
     Submission.arxiv_id := None;
     Submission.version := 1;
     Submission.reason_for_withdrawal := None;
     Submission.user_requests := ∅;
     Submission.processes := [];
     Submission.holds := ∅ |}.

(** The creation, passed again. *)
Definition creation_again : Event.t :=
  Sample.event Sample.jane 1 false CreateSubmission.

(** A second creation event: of the events modelled, the one that a newly
    created submission accepts. *)
Definition later_event : Event.t :=
  Sample.event Sample.jane 2 false CreateSubmission.

(** The collaborators of [Sample.world], over that log. *)
Definition world : Externals :=
  {| sha1_hexdigest := sha1_hexdigest Sample.world;
     isoformat := isoformat Sample.world;
     taxonomy := taxonomy Sample.world;
     event_digest := event_digest Sample.world;
     str_hash := str_hash Sample.world;
     set_iter := set_iter Sample.world;
     rules := rules Sample.world;
     get_submission := fun sid _ =>
       if (sid =? 1)%Z then Ok (created_submission, [creation])
       else Raise NoSuchSubmission;
     utc_now := utc_now Sample.world;
     recursion_limit := recursion_limit Sample.world |}.

End Case.

(* ===================================================================== *)
(** ** Properties of [sorted] *)
(* ===================================================================== *)

Section Sorted.

Context {A : Type} (key : A -> Z).

#[local] Instance key_le_trans : Transitive (key_le key).
Proof. unfold key_le. intros a b c. lia. Qed.

Lemma insert_by_Permutation (a : A) (l : list A) :
  insert_by key a l ≡ₚ a :: l.
Proof.
  induction l as [|y l IH]; simpl; [done|].
  destruct (key a <=? key y)%Z; [done|].
  rewrite IH. apply Permutation_swap.
Qed.

Lemma sorted_Permutation (l : list A) : sorted key l ≡ₚ l.
Proof.
  induction l as [|a l IH]; simpl; [done|].
  by rewrite insert_by_Permutation, IH.
Qed.

Lemma elem_of_sorted (a : A) (l : list A) : a ∈ sorted key l <-> a ∈ l.
Proof. by rewrite sorted_Permutation. Qed.

Lemma insert_by_Sorted (a : A) (l : list A) :
  Sorted (key_le key) l -> Sorted (key_le key) (insert_by key a l).
Proof.
  induction l as [|y l IH]; simpl; intros Hl.
  - by repeat constructor.
  - destruct (Z.leb_spec (key a) (key y)) as [Hle|Hgt].
    + constructor; [done|]. by constructor.
    + apply Sorted_inv in Hl as [Hl Hhd].
      constructor; [by apply IH|].
      destruct l as [|z l]; simpl.
      * constructor. unfold key_le. lia.
      * destruct (key a <=? key z)%Z; constructor.
        -- unfold key_le. lia.
        -- by apply HdRel_inv in Hhd.
Qed.

Lemma sorted_Sorted (l : list A) : Sorted (key_le key) (sorted key l).
Proof.
  induction l as [|a l IH]; simpl; [constructor|].
  by apply insert_by_Sorted.
Qed.

(** A list that is in order already is left as it is. *)
Lemma sorted_id (l : list A) : Sorted (key_le key) l -> sorted key l = l.
Proof.
  induction l as [|a l IH]; simpl; [done|]. intros Hl.
  apply Sorted_inv in Hl as [Hl Hhd]. rewrite IH by done.
  destruct Hhd as [|y l' Hay]; simpl; [done|].
  apply Z.leb_le in Hay. by rewrite Hay.
Qed.

(** Stability: elements with the same key keep their relative order. *)
Lemma insert_by_stable (t : Z) (a : A) (l : list A) :
  filter (fun e => key e = t) (insert_by key a l)
  = filter (fun e => key e = t) (a :: l).
Proof.
  induction l as [|y l IH]; simpl; [done|].
  destruct (Z.leb_spec (key a) (key y)) as [Hle|Hgt]; [done|].
  rewrite filter_cons, IH, !filter_cons.
  destruct (decide (key y = t)), (decide (key a = t)); try done; lia.
Qed.

Lemma sorted_stable (t : Z) (l : list A) :
  filter (fun e => key e = t) (sorted key l) = filter (fun e => key e = t) l.
Proof.
  induction l as [|a l IH]; simpl; [done|].
  by rewrite insert_by_stable, !filter_cons, IH.
Qed.

Lemma insert_by_head (a : A) (l : list A) :
  Forall (key_le key a) l -> insert_by key a l = a :: l.
Proof.
  destruct l as [|y l]; simpl; [done|]. intros Hall.
  apply Forall_cons_1 in Hall as [Hay _].
  apply Z.leb_le in Hay. by rewrite Hay.
Qed.

(** Sorting and filtering commute. *)
Lemma insert_by_filter (P : A -> Prop) `{!forall a, Decision (P a)}
    (a : A) (l : list A) :
  StronglySorted (key_le key) l ->
  filter P (insert_by key a l)
  = if decide (P a) then insert_by key a (filter P l) else filter P l.
Proof.
  induction l as [|y l IH]; simpl; intros Hl.
  { rewrite filter_cons. by destruct (decide (P a)). }
  apply StronglySorted_inv in Hl as [Hl Hy].
  destruct (Z.leb_spec (key a) (key y)) as [Hle|Hgt].
  - rewrite (filter_cons _ a). destruct (decide (P a)); [|done].
    rewrite insert_by_head; [done|].
    apply Forall_forall. intros z Hz.
    apply list_elem_of_filter in Hz as [_ Hz].
    apply elem_of_cons in Hz as [->|Hz]; [done|].
    rewrite Forall_forall in Hy. specialize (Hy z Hz).
    unfold key_le in *. lia.
  - rewrite !(filter_cons _ y), IH by done.
    destruct (decide (P y)), (decide (P a)); try done.
    simpl. destruct (Z.leb_spec (key a) (key y)); [lia|done].
Qed.

Lemma sorted_filter (P : A -> Prop) `{!forall a, Decision (P a)}
    (l : list A) :
  filter P (sorted key l) = sorted key (filter P l).
Proof.
  induction l as [|a l IH]; simpl; [done|].
  rewrite insert_by_filter.
  - rewrite filter_cons, IH. by destruct (decide (P a)).
  - apply Sorted_StronglySorted; [apply _|apply sorted_Sorted].
Qed.

(** With pairwise distinct keys the outcome depends on the members only. *)
Lemma sorted_unique (l1 l2 : list A) :
  l1 ≡ₚ l2 ->
  (forall a b, a ∈ l1 -> b ∈ l1 -> key a = key b -> a = b) ->
  sorted key l1 = sorted key l2.
Proof.
  intros Hperm Hinj.
  apply (Sorted_unique_strong (key_le key)); try apply sorted_Sorted.
  - intros a b Ha Hb Hab Hba. apply Hinj.
    + by rewrite elem_of_sorted in Ha.
    + rewrite elem_of_sorted in Hb. by rewrite Hperm.
    + unfold key_le in *. lia.
  - by rewrite !sorted_Permutation.
Qed.

End Sorted.

(* ===================================================================== *)
(** ** Properties of the aggregate *)
(* ===================================================================== *)

Lemma str_in_spec (s : string) (l : list string) :
  Submission.str_in s l = true <-> s ∈ l.
Proof.
  unfold Submission.str_in. rewrite existsb_exists. split.
  - intros (y & Hy & Heq). apply String.eqb_eq in Heq. subst.
    by apply list_elem_of_In.
  - intros Hin. exists s. split; [by apply list_elem_of_In|].
    apply String.eqb_refl.
Qed.

(** C8.  The status predicates of a submission: [published] holds exactly
    when the status is PUBLISHED, [deleted] exactly when it is DELETED,
    [finalized] exactly when it is neither WORKING nor DELETED, [active]
    exactly when it is neither DELETED nor PUBLISHED, and [is_on_hold]
    exactly when there is a hold or the status is ON_HOLD. *)
Theorem status_predicates (s : Submission.t) :
  (Submission.published s = true
     <-> Submission.status s = Submission.PUBLISHED)
  /\ (Submission.deleted s = true
     <-> Submission.status s = Submission.DELETED)
  /\ (Submission.finalized s = true
     <-> Submission.status s ∉ [Submission.WORKING; Submission.DELETED])
  /\ (Submission.active s = true
     <-> Submission.status s ∉ [Submission.DELETED; Submission.PUBLISHED])
  /\ (Submission.is_on_hold s = true
     <-> Submission.holds s ≠ ∅
         \/ Submission.status s = Submission.ON_HOLD).
Proof.
  unfold Submission.published, Submission.deleted, Submission.finalized,
    Submission.active, Submission.is_on_hold.
  repeat split.
  1-4: apply String.eqb_eq.
  1-4: rewrite negb_true_iff, <- not_true_iff_false, str_in_spec; done.
  - intros H. apply orb_true_iff in H as [H|H].
    + left. apply Nat.ltb_lt in H. intros Hempty.
      rewrite Hempty, map_size_empty in H. lia.
    + right. by apply String.eqb_eq.
  - intros [H|H]; apply orb_true_iff.
    + left. apply Nat.ltb_lt.
      destruct (size (Submission.holds s)) eqn:Hsz; [|lia].
      by apply map_size_empty_iff in Hsz.
    + right. by apply String.eqb_eq.
Qed.

(** The witness of C8: a published submission with a hold. *)
Lemma status_predicates_witness :
  Submission.published
    (Sample.bare Submission.PUBLISHED ∅ [] {["e1" := Sample.hold]}) = true
  /\ Submission.is_on_hold
    (Sample.bare Submission.PUBLISHED ∅ [] {["e1" := Sample.hold]}) = true.
Proof.
  pose proof (status_predicates
    (Sample.bare Submission.PUBLISHED ∅ [] {["e1" := Sample.hold]}))
    as (Hp & _ & _ & _ & Hh).
  split.
  - apply Hp. reflexivity.
  - apply Hh. left. simpl. apply map_non_empty_singleton.
Defined.

(* ===================================================================== *)
(** ** Properties of the compilation views *)
(* ===================================================================== *)

Lemma compilation_processes_elem (p : ProcessStatus.t)
    (processes : list ProcessStatus.t) :
  p ∈ Compilation.compilation_processes processes ->
  p ∈ processes /\ ProcessStatus.process p = ProcessStatus.COMPILATION.
Proof.
  unfold Compilation.compilation_processes.
  rewrite elem_of_sorted, list_elem_of_filter. tauto.
Qed.

Lemma compilation_processes_nil (processes : list ProcessStatus.t) :
  (forall p, p ∈ processes ->
             ProcessStatus.process p ≠ ProcessStatus.COMPILATION) ->
  Compilation.compilation_processes processes = [].
Proof.
  intros Hnone.
  destruct (Compilation.compilation_processes processes) as [|p l] eqn:E;
    [done|].
  assert (p ∈ Compilation.compilation_processes processes) as Hp
    by (rewrite E; left).
  apply compilation_processes_elem in Hp as [Hin Hc]. by apply Hnone in Hin.
Qed.

(** C10.  A submission without any COMPILATION record has no latest
    compilation: [latest_compilation] returns [None]; it neither returns a
    compilation nor raises. *)
Theorem latest_compilation_none (s : Submission.t) :
  (forall p, p ∈ Submission.processes s ->
             ProcessStatus.process p ≠ ProcessStatus.COMPILATION) ->
  Submission.latest_compilation s = Ok None
  /\ Compilation.from_processes (Submission.processes s) = Ok None.
Proof.
  intros Hnone. unfold Submission.latest_compilation.
  assert (Compilation.from_processes (Submission.processes s) = Ok None)
    as H; [|done].
  unfold Compilation.from_processes.
  by rewrite compilation_processes_nil.
Qed.

Lemma latest_compilation_none_witness :
  (forall p, p ∈ Sample.extraction_only ->
             ProcessStatus.process p ≠ ProcessStatus.COMPILATION)
  /\ Submission.latest_compilation
       (Sample.bare Submission.WORKING ∅ Sample.extraction_only ∅)
     = Ok None.
Proof.
  assert (forall p, p ∈ Sample.extraction_only ->
             ProcessStatus.process p ≠ ProcessStatus.COMPILATION) as H.
  { intros p Hp. apply list_elem_of_singleton in Hp. by subst. }
  split; [exact H|].
  exact (proj1 (latest_compilation_none
    (Sample.bare Submission.WORKING ∅ Sample.extraction_only ∅) H)).
Defined.

(** C9.  When the last COMPILATION record, in order of creation, has a
    terminal status and no record with its identifier is REQUESTED,
    [from_processes] raises instead of returning: the backward scan binds
    no [start_time], so that reading it raises [UnboundLocalError] (unless
    the identifier does not have three parts, in which case unpacking it
    has raised [ValueError] before). *)
Theorem from_processes_unbound_start_time
    (processes : list ProcessStatus.t) (latest : ProcessStatus.t) :
  last (Compilation.compilation_processes processes) = Some latest ->
  ProcessStatus.finished (ProcessStatus.status latest) = true ->
  (forall p, p ∈ processes ->
     ProcessStatus.process_identifier p
       = ProcessStatus.process_identifier latest ->
     ProcessStatus.status p ≠ ProcessStatus.REQUESTED) ->
  raises (Compilation.from_processes processes)
  /\ (forall a b c,
        split (ProcessStatus.process_identifier latest) = [a; b; c] ->
        Compilation.from_processes processes = Raise UnboundLocalError).
Proof.
  intros Hlast Hfin Hnone.
  assert (List.find (Compilation.is_request_of latest)
            (reverse (Compilation.compilation_processes processes)) = None)
    as Hfind.
  { destruct (List.find _ _) as [p|] eqn:E; [|done].
    apply find_some in E as [Hin Hp].
    apply list_elem_of_In, elem_of_reverse, compilation_processes_elem
      in Hin as [Hin _].
    unfold Compilation.is_request_of in Hp.
    apply andb_true_iff in Hp as [Hid Hst].
    apply String.eqb_eq in Hid. apply bool_decide_eq_true in Hst.
    by apply Hnone in Hid. }
  assert (forall a b c,
        split (ProcessStatus.process_identifier latest) = [a; b; c] ->
        Compilation.from_processes processes = Raise UnboundLocalError)
    as Hthree.
  { intros a b c Hsplit. unfold Compilation.from_processes.
    rewrite Hlast, Hsplit. simpl. by rewrite Hfin, Hfind. }
  split; [|exact Hthree].
  unfold raises.
  destruct (split (ProcessStatus.process_identifier latest))
    as [|a [|b [|c [|d l]]]] eqn:Hsplit;
    try (exists ValueError; unfold Compilation.from_processes;
         by rewrite Hlast, Hsplit).
  exists UnboundLocalError. by apply (Hthree a b c).
Qed.

Lemma from_processes_unbound_start_time_witness :
  Compilation.from_processes Sample.orphan_result = Raise UnboundLocalError.
Proof.
  refine (proj2 (from_processes_unbound_start_time Sample.orphan_result
    (Sample.record Sample.pid_x ProcessStatus.SUCCEEDED 2) _ _ _)
    "1234" "asdf12345zxcv" "pdf" _); try reflexivity.
  intros p Hp Hid.
  apply list_elem_of_In in Hp. simpl in Hp.
  destruct Hp as [<-|[<-|[]]]; [discriminate Hid|discriminate].
Defined.

(** A run of COMPILATION records in order of creation is what
    [from_processes] works on. *)
Lemma compilation_processes_id (l : list ProcessStatus.t) :
  Forall (fun p => ProcessStatus.process p = ProcessStatus.COMPILATION) l ->
  Sorted (key_le ProcessStatus.created) l ->
  Compilation.compilation_processes l = l.
Proof.
  intros Hall Hsorted. unfold Compilation.compilation_processes.
  replace (filter _ l) with l; [by apply sorted_id|].
  clear Hsorted. induction Hall as [|p l Hp _ IH]; [done|].
  rewrite filter_cons, decide_True by done. by f_equal.
Qed.

(** The claim of C3 fails on the code: in the stream REQUESTED (1),
    REQUESTED (2), SUCCEEDED (3) for one identifier, then REQUESTED (4),
    FAILED (5) for another, the first compilation starts at 2, the time of
    the second REQUESTED record, not at 1. *)
Lemma compilations_start_time_counterexample :
  Submission.compilations
    (Sample.bare Submission.WORKING ∅ Sample.two_attempts ∅)
  = Ok [ Some {| Compilation.source_id := "1234";
                 Compilation.checksum := "asdf12345zxcv";
                 Compilation.output_format := "pdf";
                 Compilation.start_time := 2;
                 Compilation.end_time := Some 3;
                 Compilation.status := Compilation.SUCCEEDED |};
         Some {| Compilation.source_id := "1234";
                 Compilation.checksum := "qwer67890uiop";
                 Compilation.output_format := "pdf";
                 Compilation.start_time := 4;
                 Compilation.end_time := Some 5;
                 Compilation.status := Compilation.FAILED |} ]
  /\ ~ (exists c rest,
         Submission.compilations
           (Sample.bare Submission.WORKING ∅ Sample.two_attempts ∅)
         = Ok (Some c :: rest)
         /\ Compilation.start_time c = 1).
Proof.
  split; [reflexivity|].
  intros (c & rest & Heq & Hstart).
  vm_compute in Heq. injection Heq as <- _. discriminate Hstart.
Qed.

(** The scan of [get_compilations] passes over the records of other
    processes: it sees the COMPILATION records, in order of creation. *)
Lemma get_compilations_from_filter (ps on_deck : list ProcessStatus.t) :
  Submission.get_compilations_from on_deck ps
  = Submission.get_compilations_from on_deck
      (filter (fun p => ProcessStatus.process p = ProcessStatus.COMPILATION)
              ps).
Proof.
  revert on_deck. induction ps as [|p ps IH]; intros on_deck; [done|].
  rewrite filter_cons. simpl.
  destruct (decide (ProcessStatus.process p = ProcessStatus.COMPILATION))
    as [Hp|Hp].
  - simpl. rewrite (bool_decide_eq_true_2 _ Hp). simpl.
    destruct (last on_deck) as [top|]; [|apply IH].
    destruct (_ || _)%bool; [|apply IH].
    by rewrite (IH [p]).
  - rewrite (bool_decide_eq_false_2 _ Hp). simpl. apply IH.
Qed.

Lemma get_compilations_scan (s : Submission.t) :
  Submission.get_compilations s
  = Submission.get_compilations_from []
      (Compilation.compilation_processes (Submission.processes s)).
Proof.
  unfold Submission.get_compilations, Compilation.compilation_processes.
  by rewrite get_compilations_from_filter, sorted_filter.
Qed.

(** C3 (amended).  For a submission whose COMPILATION records are, in
    order of creation, REQUESTED, REQUESTED, SUCCEEDED for an identifier
    [X] and then REQUESTED, FAILED for another identifier [Y],
    [compilations] has exactly two entries.  The first is SUCCEEDED, ends
    at the time of the SUCCEEDED record, and starts at the time of the
    second REQUESTED record, the latest one before the result.  The second
    is FAILED. *)
Theorem compilations_grouping (s : Submission.t) (X Y : string)
    (x1 x2 x3 y1 y2 y3 : string) (t1 t2 t3 t4 t5 : datetime) :
  split X = [x1; x2; x3] ->
  split Y = [y1; y2; y3] ->
  X ≠ Y ->
  Compilation.compilation_processes (Submission.processes s) =
    [ Sample.record X ProcessStatus.REQUESTED t1;
      Sample.record X ProcessStatus.REQUESTED t2;
      Sample.record X ProcessStatus.SUCCEEDED t3;
      Sample.record Y ProcessStatus.REQUESTED t4;
      Sample.record Y ProcessStatus.FAILED t5 ] ->
  Submission.compilations s
  = Ok [ Some {| Compilation.source_id := x1;
                 Compilation.checksum := x2;
                 Compilation.output_format := x3;
                 Compilation.start_time := t2;
                 Compilation.end_time := Some t3;
                 Compilation.status := Compilation.SUCCEEDED |};
         Some {| Compilation.source_id := y1;
                 Compilation.checksum := y2;
                 Compilation.output_format := y3;
                 Compilation.start_time := t4;
                 Compilation.end_time := Some t5;
                 Compilation.status := Compilation.FAILED |} ].
Proof.
  intros HX HY Hne Hprocs.
  assert (t1 <= t2 /\ t2 <= t3 /\ t3 <= t4 /\ t4 <= t5)%Z
    as (H12 & H23 & H34 & H45).
  { pose proof (sorted_Sorted ProcessStatus.created
      (filter (fun p => ProcessStatus.process p = ProcessStatus.COMPILATION)
         (Submission.processes s))) as Hsorted.
    fold (Compilation.compilation_processes (Submission.processes s))
      in Hsorted.
    rewrite Hprocs in Hsorted.
    repeat (apply Sorted_inv in Hsorted as [Hsorted ?%HdRel_inv]).
    unfold key_le in *. simpl in *. lia. }
  unfold Submission.compilations.
  rewrite get_compilations_scan, Hprocs.
  assert (String.eqb Y X = false) as HYX by (apply String.eqb_neq; congruence).
  cbn -[String.eqb split Compilation.from_processes].
  rewrite !String.eqb_refl, HYX.
  cbn -[String.eqb split Compilation.from_processes].
  unfold Compilation.from_processes.
  rewrite !compilation_processes_id
    by (repeat constructor; unfold key_le; simpl; lia).
  cbn -[String.eqb split]. rewrite HX, HY.
  unfold Compilation.is_request_of.
  cbn -[String.eqb split].
  by rewrite !String.eqb_refl.
Qed.

Lemma compilations_grouping_witness :
  Submission.compilations
    (Sample.bare Submission.WORKING ∅ Sample.shuffled_attempts ∅)
  = Ok [ Some {| Compilation.source_id := "1234";
                 Compilation.checksum := "asdf12345zxcv";
                 Compilation.output_format := "pdf";
                 Compilation.start_time := 2;
                 Compilation.end_time := Some 3;
                 Compilation.status := Compilation.SUCCEEDED |};
         Some {| Compilation.source_id := "1234";
                 Compilation.checksum := "qwer67890uiop";
                 Compilation.output_format := "pdf";
                 Compilation.start_time := 4;
                 Compilation.end_time := Some 5;
                 Compilation.status := Compilation.FAILED |} ].
Proof.
  apply (compilations_grouping _ Sample.pid_x Sample.pid_y
           "1234" "asdf12345zxcv" "pdf" "1234" "qwer67890uiop" "pdf"
           1 2 3 4 5); try reflexivity.
  discriminate.
Defined.

(* ===================================================================== *)
(** ** Properties of the request events *)
(* ===================================================================== *)

Lemma is_active_spec (req : UserRequest.t) :
  UserRequest.is_active req = true
  <-> UserRequest.status req = UserRequest.PENDING
      \/ UserRequest.status req = UserRequest.APPROVED.
Proof.
  unfold UserRequest.is_active, UserRequest.is_pending,
    UserRequest.is_approved.
  by rewrite orb_true_iff, !String.eqb_eq.
Qed.

(** [has_active_requests]: some request is PENDING or APPROVED. *)
Lemma has_active_requests_spec (s : Submission.t) :
  Submission.has_active_requests s = true
  <-> exists r req,
        Submission.user_requests s !! r = Some req
        /\ (UserRequest.status req = UserRequest.PENDING
            \/ UserRequest.status req = UserRequest.APPROVED).
Proof.
  unfold Submission.has_active_requests, Submission.active_user_requests,
    Submission.user_request_values.
  rewrite Nat.ltb_lt. split.
  - intros Hlen.
    destruct (List.filter _ _) as [|req l] eqn:E; [simpl in Hlen; lia|].
    assert (In req (List.filter UserRequest.is_active
              (snd <$> map_to_list (Submission.user_requests s)))) as Hin
      by (rewrite E; by left).
    apply filter_In in Hin as [Hin Hact].
    apply list_elem_of_In, list_elem_of_fmap in Hin as ([r req'] & -> & Hin).
    apply elem_of_map_to_list in Hin.
    exists r, req'. split; [done|]. by apply is_active_spec.
  - intros (r & req & Hr & Hact).
    assert (In req (List.filter UserRequest.is_active
              (snd <$> map_to_list (Submission.user_requests s)))) as Hin.
    { apply filter_In. split; [|by apply is_active_spec].
      apply list_elem_of_In, list_elem_of_fmap. exists (r, req).
      split; [done|]. by apply elem_of_map_to_list. }
    destruct (List.filter _ _); [destruct Hin|simpl; lia].
Qed.

Lemma published_spec (s : Submission.t) :
  Submission.published s = true
  <-> Submission.status s = Submission.PUBLISHED.
Proof. apply String.eqb_eq. Qed.

(** C6.  Validating a [RequestWithdrawal] fails with [InvalidEvent] exactly
    when the submission has an active (PENDING or APPROVED) request, or the
    reason is empty, or the reason has more than 400 characters, or the
    submission is not published.  A reason of 401 characters fails; one of
    400 characters succeeds on a published submission without active
    requests. *)
Theorem withdrawal_request_preconditions (x : Externals) (e : Event.t)
    (reason : string) (s : Submission.t) :
  Event.command e = RequestWithdrawal reason ->
  ((exists why, validate x e (Some s) = Raise (InvalidEvent e why))
   <-> ((exists r req,
           Submission.user_requests s !! r = Some req
           /\ (UserRequest.status req = UserRequest.PENDING
               \/ UserRequest.status req = UserRequest.APPROVED))
        \/ reason = ""
        \/ (400 < String.length reason)%nat
        \/ Submission.status s ≠ Submission.PUBLISHED))
  /\ (String.length reason = 401%nat ->
      exists why, validate x e (Some s) = Raise (InvalidEvent e why))
  /\ (String.length reason = 400%nat ->
      Submission.status s = Submission.PUBLISHED ->
      (forall r req,
         Submission.user_requests s !! r = Some req ->
         UserRequest.status req ≠ UserRequest.PENDING
         /\ UserRequest.status req ≠ UserRequest.APPROVED) ->
      validate x e (Some s) = Ok tt).
Proof.
  intros Hcmd.
  assert ((exists why, validate x e (Some s) = Raise (InvalidEvent e why))
   <-> ((exists r req,
           Submission.user_requests s !! r = Some req
           /\ (UserRequest.status req = UserRequest.PENDING
               \/ UserRequest.status req = UserRequest.APPROVED))
        \/ reason = ""
        \/ (400 < String.length reason)%nat
        \/ Submission.status s ≠ Submission.PUBLISHED)) as Hiff.
  { rewrite <- has_active_requests_spec, <- published_spec.
    unfold validate, no_active_requests, MAX_LENGTH. rewrite Hcmd.
    destruct (Submission.has_active_requests s); simpl.
    { split; [by left | by eexists]. }
    destruct (String.eqb_spec reason ""); simpl.
    { split; [by right; left | by eexists]. }
    destruct (Nat.ltb_spec 400 (String.length reason)); simpl.
    { split; [by right; right; left | by eexists]. }
    destruct (Submission.published s); simpl.
    - split; [by intros [? ?]|].
      intros [?|[?|[?|?]]]; try done; lia.
    - split; [by right; right; right | by eexists]. }
  split; [exact Hiff|]. split.
  - intros Hlen. apply Hiff. right; right; left. lia.
  - intros Hlen Hpub Hnone.
    assert (validate x e (Some s) = Ok tt
            \/ exists why, validate x e (Some s) = Raise (InvalidEvent e why))
      as [Hok|Hfail]; [|exact Hok|exfalso].
    { unfold validate, no_active_requests. rewrite Hcmd.
      destruct (Submission.has_active_requests s); simpl;
        [right; by eexists|].
      destruct (String.eqb reason ""); simpl; [right; by eexists|].
      destruct (MAX_LENGTH <? String.length reason)%nat; simpl;
        [right; by eexists|].
      destruct (Submission.published s); simpl;
        [by left | right; by eexists]. }
    apply Hiff in Hfail as [(r & req & Hr & Hact)|[->|[?|?]]].
    + apply Hnone in Hr as [? ?]. by destruct Hact.
    + simpl in Hlen. lia.
    + lia.
    + done.
Qed.

Lemma withdrawal_request_preconditions_witness :
  validate Sample.world
    (Sample.event Sample.jane 10 false
       (RequestWithdrawal (Sample.reason_of_length 400)))
    (Some (Sample.bare Submission.PUBLISHED ∅ [] ∅)) = Ok tt
  /\ exists why,
       validate Sample.world
         (Sample.event Sample.jane 10 false
            (RequestWithdrawal (Sample.reason_of_length 401)))
         (Some (Sample.bare Submission.PUBLISHED ∅ [] ∅))
       = Raise (InvalidEvent
                  (Sample.event Sample.jane 10 false
                     (RequestWithdrawal (Sample.reason_of_length 401)))
                  why).
Proof.
  split.
  - apply (withdrawal_request_preconditions Sample.world _
             (Sample.reason_of_length 400)); try reflexivity.
    intros r req Hr. simpl in Hr. by rewrite lookup_empty in Hr.
  - apply (withdrawal_request_preconditions Sample.world _
             (Sample.reason_of_length 401)); reflexivity.
Defined.

Lemma settles_validate (x : Externals) (e : Event.t) (r status : string)
    (s : Submission.t) :
  settles e r status ->
  validate x e (Some s) = validate_request_exists e (Some r) s.
Proof.
  unfold validate. by intros [[-> _]|[[-> _]|[-> _]]].
Qed.

Lemma settles_project (x : Externals) (e : Event.t) (r status : string)
    (s : Submission.t) :
  settles e r status ->
  project x e (Some s) = project_status (Some r) status s.
Proof.
  unfold project. by intros [[-> ->]|[[-> ->]|[-> ->]]].
Qed.

Lemma has_request_spec (r : string) (s : Submission.t) :
  has_request (Some r) s = false <-> Submission.user_requests s !! r = None.
Proof.
  unfold has_request. rewrite bool_decide_eq_false.
  by rewrite eq_None_not_Some.
Qed.

(** C7.  An [ApproveRequest] (or [RejectRequest], or [ApplyRequest]) for a
    request [r] fails validation, with [InvalidEvent], exactly when [r] is
    not among the user requests.  When [r] is there, projecting the event
    sets the status of [r] to APPROVED (or REJECTED, or APPLIED) and
    changes nothing else: the other fields of the request, the other
    requests and all other fields of the submission stay as they are. *)
Theorem request_resolution_frame (x : Externals) (e : Event.t)
    (r status : string) (s : Submission.t) :
  settles e r status ->
  ((exists why, validate x e (Some s) = Raise (InvalidEvent e why))
   <-> Submission.user_requests s !! r = None)
  /\ (Submission.user_requests s !! r = None ->
      validate x e (Some s) = Raise (InvalidEvent e "No such request"))
  /\ (is_Some (Submission.user_requests s !! r) ->
      validate x e (Some s) = Ok tt)
  /\ forall req,
       Submission.user_requests s !! r = Some req ->
       exists s',
         project x e (Some s) = Ok s'
         /\ Submission.user_requests s' !! r
            = Some {| UserRequest.creator := UserRequest.creator req;
                      UserRequest.created := UserRequest.created req;
                      UserRequest.updated := UserRequest.updated req;
                      UserRequest.status := status;
                      UserRequest.variant := UserRequest.variant req |}
         /\ (forall r', r' ≠ r ->
               Submission.user_requests s' !! r'
               = Submission.user_requests s !! r')
         /\ Submission.metadata s' = Submission.metadata s
         /\ Submission.primary_classification s'
            = Submission.primary_classification s
         /\ Submission.secondary_classification s'
            = Submission.secondary_classification s
         /\ Submission.status s' = Submission.status s
         /\ Submission.holds s' = Submission.holds s
         /\ Submission.processes s' = Submission.processes s
         /\ Submission.creator s' = Submission.creator s
         /\ Submission.owner s' = Submission.owner s
         /\ Submission.created s' = Submission.created s
         /\ Submission.updated s' = Submission.updated s
         /\ Submission.submission_id s' = Submission.submission_id s
         /\ Submission.arxiv_id s' = Submission.arxiv_id s
         /\ Submission.version s' = Submission.version s
         /\ Submission.reason_for_withdrawal s'
            = Submission.reason_for_withdrawal s.
Proof.
  intros Hsettles.
  rewrite (settles_validate x e r status s Hsettles).
  unfold validate_request_exists.
  repeat split.
  - intros [why Hv]. apply has_request_spec.
    by destruct (has_request (Some r) s).
  - intros Hnone. apply has_request_spec in Hnone. rewrite Hnone.
    by eexists.
  - intros Hnone. apply has_request_spec in Hnone. by rewrite Hnone.
  - intros Hsome.
    destruct (has_request (Some r) s) eqn:E; [done|].
    apply has_request_spec in E. rewrite E in Hsome. by destruct Hsome.
  - intros req Hreq.
    rewrite (settles_project x e r status s Hsettles).
    unfold project_status. rewrite Hreq. eexists. split; [done|].
    simpl. split; [by rewrite lookup_insert_eq|].
    split; [|done].
    intros r' Hne. by rewrite lookup_insert_ne.
Qed.

Lemma request_resolution_frame_witness :
  exists s',
    project Sample.world
      (Sample.event Sample.system 10 false (ApproveRequest (Some "r1")))
      (Some Sample.stored_submission) = Ok s'
    /\ Submission.user_requests s' !! "r1"
       = Some (Sample.withdrawal UserRequest.APPROVED 6)
    /\ Submission.user_requests s' !! "r0"
       = Some (Sample.withdrawal UserRequest.REJECTED 3)
    /\ Submission.status s' = Submission.PUBLISHED.
Proof.
  destruct (request_resolution_frame Sample.world
              (Sample.event Sample.system 10 false
                 (ApproveRequest (Some "r1")))
              "r1" UserRequest.APPROVED Sample.stored_submission)
    as (_ & _ & _ & Hproject).
  { left. split; reflexivity. }
  destruct (Hproject (Sample.withdrawal UserRequest.PENDING 6))
    as (s' & Hs' & Hr1 & Hother & _ & _ & _ & Hstatus & _).
  { reflexivity. }
  exists s'. split; [exact Hs'|]. split; [exact Hr1|]. split.
  - rewrite Hother by discriminate. reflexivity.
  - exact Hstatus.
Defined.

(** Settling a request needs no more than the request being there. *)
Lemma apply_settles (x : Externals) (e : Event.t) (r status : string)
    (s : Submission.t) (req : UserRequest.t) :
  settles e r status ->
  Submission.user_requests s !! r = Some req ->
  apply x e (Some s)
  = Ok (Submission.set_user_requests
          (<[r := UserRequest.set_status status req]>
             (Submission.user_requests s)) s).
Proof.
  intros Hsettles Hreq. unfold apply.
  rewrite (settles_validate x e r status s Hsettles),
    (settles_project x e r status s Hsettles).
  unfold validate_request_exists, project_status, has_request.
  rewrite Hreq. rewrite bool_decide_eq_true_2 by by eexists. done.
Qed.

(** The claim of C2 fails on the code.  A [RejectRequest] for an APPROVED
    request is applied and leaves the request REJECTED; an
    [ApproveRequest] for a REJECTED request leaves it APPROVED, and so does
    one for an APPLIED request. *)
Lemma request_status_not_terminal_counterexample :
  (exists s',
     apply Sample.world
       (Sample.event Sample.system 10 false (RejectRequest (Some "r1")))
       (Some (Sample.bare Submission.PUBLISHED
                {["r1" := Sample.withdrawal UserRequest.APPROVED 6]} [] ∅))
     = Ok s'
     /\ UserRequest.status <$> Submission.user_requests s' !! "r1"
        = Some UserRequest.REJECTED)
  /\ (exists s',
     apply Sample.world
       (Sample.event Sample.system 10 false (ApproveRequest (Some "r1")))
       (Some (Sample.bare Submission.PUBLISHED
                {["r1" := Sample.withdrawal UserRequest.REJECTED 6]} [] ∅))
     = Ok s'
     /\ UserRequest.status <$> Submission.user_requests s' !! "r1"
        = Some UserRequest.APPROVED)
  /\ (exists s',
     apply Sample.world
       (Sample.event Sample.system 10 false (ApproveRequest (Some "r1")))
       (Some (Sample.bare Submission.PUBLISHED
                {["r1" := Sample.withdrawal UserRequest.APPLIED 6]} [] ∅))
     = Ok s'
     /\ UserRequest.status <$> Submission.user_requests s' !! "r1"
        = Some UserRequest.APPROVED).
Proof.
  repeat split; eexists; (split; [vm_compute; reflexivity|reflexivity]).
Qed.

(** C2 (amended).  The events that settle a request do not look at its
    status: for a submission that holds a request [r], in whatever status,
    applying an [ApproveRequest], [RejectRequest] or [ApplyRequest] for [r]
    succeeds and leaves [r] APPROVED, REJECTED or APPLIED.  So a
    [RejectRequest] for an APPROVED request is accepted, and neither
    REJECTED nor APPLIED is final. *)
Theorem request_resolution_unguarded (x : Externals) (e : Event.t)
    (r status : string) (s : Submission.t) (req : UserRequest.t) :
  settles e r status ->
  Submission.user_requests s !! r = Some req ->
  exists s',
    apply x e (Some s) = Ok s'
    /\ UserRequest.status <$> Submission.user_requests s' !! r = Some status.
Proof.
  intros Hsettles Hreq. eexists. split.
  - by apply (apply_settles x e r status s req).
  - simpl. by rewrite lookup_insert_eq.
Qed.

Lemma request_resolution_unguarded_witness :
  exists s',
    apply Sample.world
      (Sample.event Sample.system 10 false (ApproveRequest (Some "r0")))
      (Some Sample.stored_submission) = Ok s'
    /\ UserRequest.status <$> Submission.user_requests s' !! "r0"
       = Some UserRequest.APPROVED.
Proof.
  apply (request_resolution_unguarded Sample.world _ "r0"
           UserRequest.APPROVED Sample.stored_submission
           (Sample.withdrawal UserRequest.REJECTED 3)).
  - left. split; reflexivity.
  - reflexivity.
Defined.

(* ===================================================================== *)
(** ** Properties of sets of events *)
(* ===================================================================== *)

Local Open Scope list_scope.

Section SetsOfEvents.

Variable x : Externals.

Lemma event_eq_refl (e : Event.t) : event_eq x e e = true.
Proof. unfold event_eq. apply Z.eqb_refl. Qed.

Lemma event_eq_sym (a b : Event.t) : event_eq x a b = event_eq x b a.
Proof. unfold event_eq. apply Z.eqb_sym. Qed.

Lemma event_eq_trans (a b c : Event.t) :
  event_eq x a b = true -> event_eq x b c = true -> event_eq x a c = true.
Proof. unfold event_eq. rewrite !Z.eqb_eq. congruence. Qed.

(** Membership in the sense of the set: some member compares equal. *)
Lemma holds_spec (e : Event.t) (s : list Event.t) :
  existsb (event_eq x e) s = true
  <-> exists m, m ∈ s /\ event_eq x e m = true.
Proof.
  rewrite existsb_exists. by setoid_rewrite list_elem_of_In.
Qed.

Lemma set_add_held (s : list Event.t) (e : Event.t) :
  existsb (event_eq x e) s = true -> set_add x s e = s.
Proof. unfold set_add. by intros ->. Qed.

Lemma elem_of_set_add (a e : Event.t) (s : list Event.t) :
  a ∈ set_add x s e -> a ∈ s \/ a = e.
Proof.
  unfold set_add. destruct (existsb _ _); [by left|].
  rewrite elem_of_app, list_elem_of_singleton. tauto.
Qed.

Lemma set_add_mono (a e : Event.t) (s : list Event.t) :
  a ∈ s -> a ∈ set_add x s e.
Proof.
  unfold set_add. destruct (existsb _ _); [done|].
  rewrite elem_of_app. tauto.
Qed.

Lemma set_add_holds (s : list Event.t) (e : Event.t) :
  existsb (event_eq x e) (set_add x s e) = true.
Proof.
  unfold set_add. destruct (existsb _ s) eqn:E; [done|].
  rewrite existsb_app. simpl. by rewrite event_eq_refl, orb_true_r.
Qed.

Lemma set_add_NoDup (s : list Event.t) (e : Event.t) :
  NoDup s -> NoDup (set_add x s e).
Proof.
  intros Hs. unfold set_add. destruct (existsb _ s) eqn:E; [done|].
  apply NoDup_app. repeat split; [done| |apply NoDup_singleton].
  intros a Ha Hae. apply list_elem_of_singleton in Hae as ->.
  apply not_true_iff_false in E. apply E, holds_spec.
  exists e. split; [done|apply event_eq_refl].
Qed.

Lemma elem_of_add_all (a : Event.t) (l acc : list Event.t) :
  a ∈ foldl (set_add x) acc l -> a ∈ acc \/ a ∈ l.
Proof.
  revert acc. induction l as [|e l IH]; simpl; intros acc Ha; [by left|].
  apply IH in Ha as [Ha|Ha].
  - apply elem_of_set_add in Ha as [Ha| ->]; [by left|right; left].
  - right. by right.
Qed.

Lemma add_all_mono (a : Event.t) (l acc : list Event.t) :
  a ∈ acc -> a ∈ foldl (set_add x) acc l.
Proof.
  revert acc. induction l as [|e l IH]; simpl; intros acc Ha; [done|].
  by apply IH, set_add_mono.
Qed.

Lemma holds_mono (e : Event.t) (l acc : list Event.t) :
  existsb (event_eq x e) acc = true ->
  existsb (event_eq x e) (foldl (set_add x) acc l) = true.
Proof.
  rewrite !holds_spec. intros (m & Hm & He). exists m.
  split; [by apply add_all_mono|done].
Qed.

Lemma add_all_holds (e : Event.t) (l acc : list Event.t) :
  e ∈ l -> existsb (event_eq x e) (foldl (set_add x) acc l) = true.
Proof.
  revert acc. induction l as [|e' l IH]; simpl; intros acc He.
  - by apply elem_of_nil in He.
  - apply elem_of_cons in He as [->|He]; [|by apply IH].
    apply holds_mono, set_add_holds.
Qed.

Lemma add_all_NoDup (l acc : list Event.t) :
  NoDup acc -> NoDup (foldl (set_add x) acc l).
Proof.
  revert acc. induction l as [|e l IH]; simpl; intros acc Hacc; [done|].
  by apply IH, set_add_NoDup.
Qed.

(** Adding events that the set holds already changes nothing. *)
Lemma add_all_held (l acc : list Event.t) :
  (forall e, e ∈ l -> existsb (event_eq x e) acc = true) ->
  foldl (set_add x) acc l = acc.
Proof.
  induction l as [|e l IH]; simpl; intros Hheld; [done|].
  rewrite set_add_held by (apply Hheld; left).
  apply IH. intros e' He'. apply Hheld. by right.
Qed.

Lemma set_of_NoDup (l : list Event.t) : NoDup (set_of x l).
Proof. apply add_all_NoDup, NoDup_nil_2. Qed.

Lemma elem_of_set_of (a : Event.t) (l : list Event.t) :
  a ∈ set_of x l -> a ∈ l.
Proof.
  intros Ha. apply elem_of_add_all in Ha as [Ha|Ha]; [|done].
  by apply elem_of_nil in Ha.
Qed.

Lemma elem_of_set_union (a : Event.t) (l1 l2 : list Event.t) :
  a ∈ set_union x (set_of x l1) (set_of x l2) -> a ∈ l1 ++ l2.
Proof.
  intros Ha. apply elem_of_app.
  apply elem_of_add_all in Ha as [Ha|Ha]; [left|right];
    by apply elem_of_set_of.
Qed.

Lemma set_union_NoDup (l1 l2 : list Event.t) :
  NoDup (set_union x (set_of x l1) (set_of x l2)).
Proof. apply add_all_NoDup, set_of_NoDup. Qed.

(** Every event given is held by the union, up to [event_eq]. *)
Lemma set_union_holds (e : Event.t) (l1 l2 : list Event.t) :
  e ∈ l1 ++ l2 ->
  existsb (event_eq x e) (set_union x (set_of x l1) (set_of x l2)) = true.
Proof.
  intros He. apply elem_of_app in He as [He|He].
  - apply holds_mono. by apply add_all_holds.
  - assert (existsb (event_eq x e) (set_of x l2) = true) as Hheld
      by by apply add_all_holds.
    apply holds_spec in Hheld as (m & Hm & Hem).
    assert (existsb (event_eq x m)
              (set_union x (set_of x l1) (set_of x l2)) = true) as Hm'
      by by apply add_all_holds.
    apply holds_spec in Hm' as (m' & Hm' & Hmm').
    apply holds_spec. exists m'. split; [done|].
    by apply (event_eq_trans e m m').
Qed.

(** Where events that compare equal are the same event, the union has
    exactly the events given. *)
Lemma elem_of_set_union_iff (a : Event.t) (l1 l2 : list Event.t) :
  (forall a b, a ∈ l1 ++ l2 -> b ∈ l1 ++ l2 ->
               event_eq x a b = true -> a = b) ->
  a ∈ set_union x (set_of x l1) (set_of x l2) <-> a ∈ l1 ++ l2.
Proof.
  intros Hsame. split; [apply elem_of_set_union|].
  intros Ha. pose proof (set_union_holds a l1 l2 Ha) as Hheld.
  apply holds_spec in Hheld as (m & Hm & Ham).
  rewrite (Hsame a m); [done..| |done].
  by apply elem_of_set_union.
Qed.

(** *** No two members compare equal *)

Lemma set_add_distinct (s : list Event.t) (e : Event.t) :
  distinct x s -> distinct x (set_add x s e).
Proof.
  intros Hs. unfold set_add. destruct (existsb _ s) eqn:E; [done|].
  assert (forall a, a ∈ s -> event_eq x e a = false) as Hnew.
  { intros a Ha. apply not_true_iff_false. intros Hea.
    apply not_true_iff_false in E. apply E, holds_spec. by exists a. }
  intros a b Ha Hb Hab.
  apply elem_of_app in Ha as [Ha|Ha], Hb as [Hb|Hb];
    rewrite ?list_elem_of_singleton in *; subst; try done.
  - by apply Hs.
  - rewrite event_eq_sym, (Hnew a Ha) in Hab. done.
  - by rewrite (Hnew b Hb) in Hab.
Qed.

Lemma add_all_distinct (l acc : list Event.t) :
  distinct x acc -> distinct x (foldl (set_add x) acc l).
Proof.
  revert acc. induction l as [|e l IH]; simpl; intros acc Hacc; [done|].
  by apply IH, set_add_distinct.
Qed.

Lemma set_of_distinct (l : list Event.t) : distinct x (set_of x l).
Proof.
  apply add_all_distinct. intros a b Ha. by apply elem_of_nil in Ha.
Qed.

Lemma distinct_Permutation (l1 l2 : list Event.t) :
  l1 ≡ₚ l2 -> distinct x l1 -> distinct x l2.
Proof.
  intros Hperm Hl1 a b Ha Hb. rewrite <- Hperm in Ha, Hb. by apply Hl1.
Qed.

End SetsOfEvents.

(* ===================================================================== *)
(** ** Properties of [save] *)
(* ===================================================================== *)

Section Save.

Variable x : Externals.

Lemma fill_submission_id_committed (sid : option Z) (e : Event.t) :
  Event.committed (fill_submission_id sid e) = Event.committed e.
Proof.
  unfold fill_submission_id.
  by destruct (Event.submission_id e), sid.
Qed.

(** *** The log only grows *)

Lemma commit_consequents_prefix
    (commit_rec : Event.t -> option Submission.t -> Submission.t ->
                  Store -> Stored (Submission.t * list Event.t)) :
  (forall e b a st, st `prefix_of` snd (commit_rec e b a st)) ->
  forall cs cur st,
    st `prefix_of` snd (commit_consequents x commit_rec cs cur st).
Proof.
  intros Hrec cs. induction cs as [|c cs IH]; simpl; intros cur st; [done|].
  destruct (apply x c (Some cur)) as [after_c|[]]; simpl; try done.
  pose proof (Hrec c (Some cur) after_c st) as H1.
  destruct (commit_rec c (Some cur) after_c st) as [[[cur' more]|err] st'];
    simpl in *; [|done].
  pose proof (IH cur' st') as H2.
  destruct (commit_consequents x commit_rec cs cur' st')
    as [[[final rest]|err] st'']; simpl in *; by etrans.
Qed.

Lemma commit_prefix (depth : nat) (e : Event.t) (b : option Submission.t)
    (a : Submission.t) (st : Store) :
  st `prefix_of` snd (commit x depth e b a st).
Proof.
  revert e b a st. induction depth as [|depth IH]; simpl; intros; [done|].
  etrans; [|by apply commit_consequents_prefix].
  unfold store_event. by apply prefix_app_r.
Qed.

(** A commit that returns has stored the event, marked as committed, with
    the state it led to. *)
Lemma commit_stored (depth : nat) (e : Event.t) (b : option Submission.t)
    (a : Submission.t) (st st' : Store)
    (r : Submission.t * list Event.t) :
  commit x depth e b a st = (Ok r, st') ->
  (Event.set_committed e, a) ∈ st'.
Proof.
  destruct depth as [|depth]; simpl; [done|]. intros Hc.
  pose proof (commit_consequents_prefix (commit x depth)
    (commit_prefix depth)
    (rules x (Event.set_committed e) b a) a
    (store_event (Event.set_committed e) a st)) as Hpre.
  rewrite Hc in Hpre. simpl in Hpre.
  destruct Hpre as [k ->]. unfold store_event.
  rewrite !elem_of_app, list_elem_of_singleton. tauto.
Qed.

Lemma save_loop_prefix (sid : option Z) (events : list Event.t)
    (before : option Submission.t) (applied : list Event.t) (st : Store) :
  st `prefix_of` snd (save_loop x sid events before applied st).
Proof.
  revert before applied st.
  induction events as [|e events IH]; simpl; intros; [done|].
  destruct (apply x _ before) as [after|err]; simpl; [|done].
  destruct (Event.committed _); [apply IH|].
  pose proof (commit_prefix (recursion_limit x)
    (fill_submission_id sid e) before after st) as H1.
  destruct (commit x _ _ before after st) as [[[after' cons]|err] st'];
    simpl in *; [|done].
  etrans; [exact H1|apply IH].
Qed.

(** A commit that returns has stored every event that followed. *)
Lemma commit_consequents_stored
    (commit_rec : Event.t -> option Submission.t -> Submission.t ->
                  Store -> Stored (Submission.t * list Event.t)) :
  (forall e b a st, st `prefix_of` snd (commit_rec e b a st)) ->
  (forall e b a st r st',
     commit_rec e b a st = (Ok r, st') ->
     (Event.set_committed e, a) ∈ st'
     /\ forall c, c ∈ r.2 -> exists s, (c, s) ∈ st') ->
  forall cs cur st r st',
    commit_consequents x commit_rec cs cur st = (Ok r, st') ->
    forall c, c ∈ r.2 -> exists s, (c, s) ∈ st'.
Proof.
  intros Hpre Hrec cs.
  induction cs as [|c cs IH]; simpl; intros cur st r st' Hrun.
  { injection Hrun as <- <-. intros c Hc. by apply elem_of_nil in Hc. }
  destruct (apply x c (Some cur)) as [after_c|[]]; try done.
  destruct (commit_rec c (Some cur) after_c st)
    as [[[cur' more]|err] st1] eqn:Hc; [|done].
  destruct (commit_consequents x commit_rec cs cur' st1)
    as [[[final rest]|err] st2] eqn:Hcs; [|done].
  injection Hrun as <- <-. simpl.
  pose proof (commit_consequents_prefix commit_rec Hpre cs cur' st1) as Hst.
  rewrite Hcs in Hst. simpl in Hst. destruct Hst as [k ->].
  apply Hrec in Hc as [Hfirst Hmore].
  intros c' Hc'. apply elem_of_cons in Hc' as [->|Hc'].
  - exists after_c. apply elem_of_app. by left.
  - apply elem_of_app in Hc' as [Hc'|Hc'].
    + destruct (Hmore c' Hc') as [s Hs]. exists s.
      apply elem_of_app. by left.
    + by apply (IH _ _ _ _ Hcs).
Qed.

Lemma commit_all_stored (depth : nat) (e : Event.t)
    (b : option Submission.t) (a : Submission.t) (st st' : Store)
    (r : Submission.t * list Event.t) :
  commit x depth e b a st = (Ok r, st') ->
  forall c, c ∈ r.2 -> exists s, (c, s) ∈ st'.
Proof.
  revert e b a st st' r.
  induction depth as [|depth IH]; simpl; intros e b a st st' r Hrun; [done|].
  apply (commit_consequents_stored (commit x depth) (commit_prefix depth)
           (fun e1 b1 a1 st1 r1 st1' H1 =>
              conj (commit_stored depth e1 b1 a1 st1 st1' r1 H1)
                   (IH e1 b1 a1 st1 st1' r1 H1))
           _ _ _ _ _ Hrun).
Qed.

(** From a run of the rest of the loop: the log it ends with extends the
    log it started from. *)
Ltac rest_extends Hrun :=
  match type of Hrun with
  | save_loop _ ?sid ?l ?b ?a ?s = _ =>
      let Hpre := fresh "Hpre" in
      pose proof (save_loop_prefix sid l b a s) as Hpre;
      rewrite Hrun in Hpre; simpl in Hpre; destruct Hpre as [? ->]
  end.

(** *** The loop, event by event *)

Lemma save_loop_app (sid : option Z) (l1 l2 : list Event.t)
    (before : option Submission.t) (applied : list Event.t) (st : Store) :
  save_loop x sid (l1 ++ l2) before applied st
  = match save_loop x sid l1 before applied st with
    | (Ok (state, applied'), st') => save_loop x sid l2 state applied' st'
    | (Raise err, st') => (Raise err, st')
    end.
Proof.
  revert before applied st.
  induction l1 as [|e l1 IH]; simpl; intros; [done|].
  destruct (apply x _ before) as [after|err]; [|done].
  destruct (Event.committed _); [apply IH|].
  destruct (commit x _ _ before after st) as [[[after' cons]|err] st'];
    [apply IH|done].
Qed.

(** Events that are committed already are applied without touching the
    log. *)
Lemma save_loop_committed (sid : option Z) (events : list Event.t)
    (before : option Submission.t) (applied : list Event.t) (st : Store) :
  (forall e, e ∈ events -> Event.committed e = true) ->
  snd (save_loop x sid events before applied st) = st.
Proof.
  revert before applied.
  induction events as [|e events IH]; simpl; intros before applied Hall;
    [done|].
  destruct (apply x _ before) as [after|err]; [|done].
  rewrite fill_submission_id_committed, (Hall e) by left.
  apply IH. intros e' He'. apply Hall. by right.
Qed.

(** A batch of committed events that gets through has been applied as it
    is, with the submission id filled in. *)
Lemma save_loop_replay (sid : option Z) (events : list Event.t)
    (before state : option Submission.t) (applied applied' : list Event.t)
    (st st' : Store) :
  (forall e, e ∈ events -> Event.committed e = true) ->
  save_loop x sid events before applied st = (Ok (state, applied'), st') ->
  st' = st /\ applied' = applied ++ (fill_submission_id sid <$> events).
Proof.
  revert before applied.
  induction events as [|e events IH]; simpl; intros before applied Hall.
  { intros [= <- <- <-]. by rewrite app_nil_r. }
  destruct (apply x _ before) as [after|err]; [|done].
  rewrite fill_submission_id_committed, (Hall e) by left.
  intros Hrun. apply IH in Hrun as [-> ->].
  - by rewrite <- app_assoc.
  - intros e' He'. apply Hall. by right.
Qed.

(** When the loop gets through, every event that was not committed has
    been stored. *)
Lemma save_loop_stored (sid : option Z) (events : list Event.t)
    (before : option Submission.t) (applied : list Event.t) (st st' : Store)
    (r : option Submission.t * list Event.t) :
  save_loop x sid events before applied st = (Ok r, st') ->
  forall e, e ∈ events -> Event.committed e = false ->
    exists after,
      (Event.set_committed (fill_submission_id sid e), after) ∈ st'.
Proof.
  revert before applied st.
  induction events as [|e events IH]; simpl; intros before applied st Hrun;
    [intros e He; by apply elem_of_nil in He|].
  destruct (apply x _ before) as [after|err]; [|done].
  rewrite fill_submission_id_committed in Hrun.
  intros e' He' Hc'. apply elem_of_cons in He' as [->|He'].
  - rewrite Hc' in Hrun.
    destruct (commit x _ _ before after st) as [[[after' cons]|err] st1]
      eqn:Hcommit; [|done].
    apply commit_stored in Hcommit. exists after.
    rest_extends Hrun.
    apply elem_of_app. by left.
  - destruct (Event.committed e).
    + by apply (IH _ _ _ Hrun).
    + destruct (commit x _ _ before after st) as [[[after' cons]|err] st1];
        [|done].
      by apply (IH _ _ _ Hrun).
Qed.

(** When the loop gets through, every event it has applied is in the log,
    unless it was committed before. *)
Lemma save_loop_applied (sid : option Z) (events : list Event.t)
    (before state : option Submission.t) (applied applied' : list Event.t)
    (st st' : Store) :
  save_loop x sid events before applied st = (Ok (state, applied'), st') ->
  forall e, e ∈ applied' ->
    e ∈ applied
    \/ (exists after, (e, after) ∈ st')
    \/ (exists e0, e0 ∈ events /\ Event.committed e0 = true
                   /\ e = fill_submission_id sid e0).
Proof.
  revert before applied st.
  induction events as [|e0 events IH]; simpl; intros before applied st Hrun.
  { injection Hrun as <- <- <-. by left. }
  destruct (apply x _ before) as [after|err]; [|done].
  rewrite fill_submission_id_committed in Hrun.
  destruct (Event.committed e0) eqn:Hc0.
  - intros e He. apply (IH _ _ _ Hrun) in He as [He|[He|He]].
    + apply elem_of_app in He as [He|He]; [by left|].
      apply list_elem_of_singleton in He as ->.
      right; right. exists e0. split; [left|done].
    + right. by left.
    + destruct He as (e1 & He1 & Hc1 & ->).
      right; right. exists e1. split; [by right|done].
  - destruct (commit x _ _ before after st) as [[[after' cons]|err] st1]
      eqn:Hcommit; [|done].
    rest_extends Hrun.
    intros e He. apply (IH _ _ _ Hrun) in He as [He|[He|He]].
    + apply elem_of_app in He as [He|He]; [by left|].
      right; left. apply elem_of_cons in He as [->|He].
      * exists after. apply elem_of_app. left.
        by apply commit_stored in Hcommit.
      * destruct (commit_all_stored _ _ _ _ _ _ _ Hcommit e He) as [s Hs].
        exists s. apply elem_of_app. by left.
    + right. by left.
    + destruct He as (e1 & He1 & Hc1 & ->).
      right; right. exists e1. split; [by right|done].
Qed.

End Save.

(** C1.  The docstring of [save] has the entire operation aborted when an
    invalid event is met; the code does not do so.  Saving a creation
    together with the approval of a request that does not exist raises
    [InvalidEvent] for the approval, and by then the creation has been
    stored: the log, empty before, holds one event of the batch. *)
Lemma save_partial_persistence_counterexample :
  save Sample.world Sample.creation_then_invalid None []
  = (Raise (InvalidEvent
              (Sample.event Sample.jane 2 false (ApproveRequest (Some "nope")))
              "No such request"),
     [ (Sample.event Sample.jane 1 true CreateSubmission,
        initial_submission (Sample.event Sample.jane 1 false CreateSubmission))
     ])
  /\ snd (save Sample.world Sample.creation_then_invalid None []) ≠ [].
Proof. split; [vm_compute; reflexivity|discriminate]. Qed.

(** How far [save] gets when it meets an invalid event, in general.  The
    event is raised and the log is the one that applying the events before
    it has left: the log from before the call is a prefix of it, every
    event before the failing one that was not yet committed is in it, as
    is every event that followed from one of these, and nothing of the
    failing event or the events after it.  Only if all events before the
    failing one were committed already is the log unchanged. *)
Theorem save_stops_at_invalid_event (x : Externals)
    (events : list Event.t) (sid : option Z) (st : Store)
    (first : Event.t) (before : option Submission.t) (prior : list Event.t)
    (done_ rest : list Event.t) (bad : Event.t)
    (state : option Submission.t) (applied : list Event.t) (st' : Store)
    (event : Event.t) (why : string) :
  head events = Some first ->
  starting_point x first sid st = Ok (before, prior) ->
  merge_events x prior events = done_ ++ bad :: rest ->
  save_loop x sid done_ before [] st = (Ok (state, applied), st') ->
  apply x (fill_submission_id sid bad) state
    = Raise (InvalidEvent event why) ->
  save x events sid st = (Raise (InvalidEvent event why), st')
  /\ st `prefix_of` st'
  /\ (forall e, e ∈ done_ -> Event.committed e = false ->
        exists after,
          (Event.set_committed (fill_submission_id sid e), after) ∈ st')
  /\ (forall e, e ∈ applied ->
        (exists after, (e, after) ∈ st')
        \/ (exists e0, e0 ∈ done_ /\ Event.committed e0 = true
                       /\ e = fill_submission_id sid e0))
  /\ ((forall e, e ∈ done_ -> Event.committed e = true) -> st' = st).
Proof.
  intros Hfirst Hstart Hmerge Hdone Hbad.
  split; [|split; [|split; [|split]]].
  - destruct events as [|first' events']; [done|].
    injection Hfirst as ->. unfold save. rewrite Hstart, Hmerge.
    rewrite save_loop_app, Hdone. simpl. by rewrite Hbad.
  - pose proof (save_loop_prefix x sid done_ before [] st) as Hpre.
    by rewrite Hdone in Hpre.
  - by apply (save_loop_stored x sid done_ before [] st st' _ Hdone).
  - intros e He.
    apply (save_loop_applied x sid done_ before state [] applied st st'
             Hdone) in He as [He|He]; [by apply elem_of_nil in He|done].
  - intros Hall.
    pose proof (save_loop_committed x sid done_ before [] st Hall) as Hsame.
    by rewrite Hdone in Hsame.
Qed.

Lemma save_stops_at_invalid_event_witness :
  exists s1,
    save Case.world
      [Case.later_event;
       Sample.event Sample.system 20 false (ApproveRequest (Some "nope"))]
      (Some 1) []
    = (Raise (InvalidEvent
                (Event.set_submission_id (Some 1)
                   (Sample.event Sample.system 20 false
                      (ApproveRequest (Some "nope"))))
                "No such request"),
       [ (Event.set_submission_id (Some 1)
            (Sample.event Sample.jane 2 true CreateSubmission), s1) ]).
Proof.
  eexists.
  refine (proj1 (save_stops_at_invalid_event Case.world
    [Case.later_event;
     Sample.event Sample.system 20 false (ApproveRequest (Some "nope"))]
    (Some 1) [] Case.later_event
    (Some Case.created_submission) [Case.creation]
    [Case.creation; Case.later_event] []
    (Sample.event Sample.system 20 false (ApproveRequest (Some "nope")))
    _ _ _ _ _ _ _ _ _ _)); reflexivity.
Defined.

(** The part of the log that [save] leaves is the one its loop leaves. *)
Lemma save_committed_history (x : Externals) (events prior : list Event.t)
    (sid : Z) (before : Submission.t) (st : Store) :
  get_submission x sid st = Ok (before, prior) ->
  (forall e, e ∈ merge_events x prior events -> Event.committed e = true) ->
  snd (save x events (Some sid) st) = st.
Proof.
  intros Hget Hall. unfold save. destruct events as [|first events']; [done|].
  unfold starting_point. rewrite Hget. simpl.
  pose proof (save_loop_committed x (Some sid)
    (merge_events x prior (first :: events')) (Some before) [] st Hall)
    as Hsame.
  by destruct (save_loop x _ _ _ _ st) as [[[[after|] applied]|err] st'].
Qed.

(** C5.  Two events of the same type, with the same creator, payload and
    creation time have the same identifier; they compare equal and have the
    same hash.  A set built from both holds one of them.  Merged into a
    history that holds one of them, the other adds nothing: the merged list
    is the set of the prior events, it is not empty, and exactly one of its
    events compares equal to the event passed, which is the one from the
    history.  So saving again an event that the committed history holds is
    a replay of the history: whenever the replay gets through, [save]
    returns the state the replay gives and the events of the history, and
    in any case stores nothing. *)
Theorem idempotent_event_identity (x : Externals) (e1 e2 : Event.t) :
  Event.event_type e1 = Event.event_type e2 ->
  Event.creator e1 = Event.creator e2 ->
  Event.command e1 = Event.command e2 ->
  Event.created e1 = Event.created e2 ->
  event_id x e1 = event_id x e2
  /\ event_eq x e1 e2 = true
  /\ event_hash x e1 = event_hash x e2
  /\ set_of x [e1; e2] = [e1]
  /\ (forall prior,
        e1 ∈ prior ->
        set_union x (set_of x prior) (set_of x [e2]) = set_of x prior
        /\ merge_events x prior [e2] = merge_events x prior []
        /\ (exists m,
              m ∈ prior /\ m ∈ set_of x prior /\ event_eq x e2 m = true
              /\ forall m',
                   m' ∈ set_union x (set_of x prior) (set_of x [e2]) ->
                   event_eq x e2 m' = true -> m' = m)
        /\ (iterates_members x ->
            merge_events x prior [e2] ≡ₚ set_of x prior
            /\ merge_events x prior [e2] ≠ []))
  /\ (forall prior sid before st,
        iterates_members x ->
        e1 ∈ prior ->
        (forall p, p ∈ prior -> Event.committed p = true) ->
        get_submission x sid st = Ok (before, prior) ->
        snd (save x [e2] (Some sid) st) = st
        /\ forall after applied st1,
             save_loop x (Some sid)
               (sorted Event.created (set_iter x (set_of x prior)))
               (Some before) [] st = (Ok (Some after, applied), st1) ->
             save x [e2] (Some sid) st
             = (Ok (after,
                    sorted Event.created (set_iter x (set_of x applied))),
                st)
             /\ applied
                = fill_submission_id (Some sid)
                    <$> sorted Event.created (set_iter x (set_of x prior))).
Proof.
  intros Htype Hcreator Hcommand Hcreated.
  assert (event_id x e1 = event_id x e2) as Hid
    by (unfold event_id; congruence).
  assert (event_hash x e1 = event_hash x e2) as Hhash
    by (unfold event_hash; congruence).
  assert (event_eq x e2 e1 = true) as Heq
    by (unfold event_eq; rewrite Hhash; apply Z.eqb_refl).
  assert (forall prior, e1 ∈ prior ->
            exists m, m ∈ set_of x prior /\ event_eq x e2 m = true) as Hrep.
  { intros prior Hin.
    assert (existsb (event_eq x e1) (set_of x prior) = true) as Hheld
      by by apply add_all_holds.
    apply holds_spec in Hheld as (m & Hm & Hem).
    exists m. split; [done|]. by apply (event_eq_trans x e2 e1 m). }
  assert (forall prior, e1 ∈ prior ->
            set_union x (set_of x prior) (set_of x [e2]) = set_of x prior)
    as Hunion.
  { intros prior Hin. unfold set_union. apply add_all_held.
    intros e He. apply elem_of_set_of, list_elem_of_singleton in He as ->.
    apply holds_spec. by apply Hrep. }
  assert (forall prior, e1 ∈ prior ->
            merge_events x prior [e2] = merge_events x prior []) as Hmerge.
  { intros prior Hin. unfold merge_events. by rewrite Hunion. }
  split; [done|]. split; [by rewrite event_eq_sym|]. split; [done|].
  split; [|split].
  - unfold set_of. simpl. unfold set_add at 2. simpl.
    unfold set_add. simpl. by rewrite Heq.
  - intros prior Hin. split; [by apply Hunion|]. split; [by apply Hmerge|].
    destruct (Hrep prior Hin) as (m & Hm & Hem). split.
    + exists m. split; [by apply elem_of_set_of in Hm|].
      split; [done|]. split; [done|].
      intros m' Hm' Hem'. rewrite (Hunion prior Hin) in Hm'.
      apply (set_of_distinct x prior); [done..|].
      apply (event_eq_trans x m' e2 m); [|done]. by rewrite event_eq_sym.
    + intros Hiter.
      assert (merge_events x prior [e2] ≡ₚ set_of x prior) as Hperm.
      { unfold merge_events.
        by rewrite sorted_Permutation, (Hiter _), (Hunion prior Hin). }
      split; [done|]. intros Hnil. rewrite Hnil in Hperm.
      apply Permutation_nil_l in Hperm. rewrite <- Hperm in Hm.
      by apply elem_of_nil in Hm.
  - intros prior sid before st Hiter Hin Hcommitted Hget.
    assert (forall e,
              e ∈ sorted Event.created (set_iter x (set_of x prior)) ->
              Event.committed e = true) as Hall.
    { intros e He. rewrite elem_of_sorted, (Hiter _) in He.
      apply Hcommitted. by apply elem_of_set_of in He. }
    assert (merge_events x prior [e2]
            = sorted Event.created (set_iter x (set_of x prior))) as Hl.
    { unfold merge_events. by rewrite (Hunion prior Hin). }
    split.
    + apply (save_committed_history x [e2] prior sid before st Hget).
      by rewrite Hl.
    + intros after applied st1 Hrun.
      destruct (save_loop_replay x (Some sid) _ (Some before) (Some after)
                  [] applied st st1 Hall Hrun) as [-> Happlied].
      split; [|done].
      unfold save, starting_point. rewrite Hget. simpl.
      change (foldl (set_add x) (set_of x prior) (set_of x [e2]))
        with (set_union x (set_of x prior) (set_of x [e2])).
      fold (merge_events x prior [e2]). by rewrite Hl, Hrun.
Qed.

Lemma idempotent_event_identity_witness :
  set_of Case.world [Case.creation; Case.creation_again] = [Case.creation]
  /\ merge_events Case.world [Case.creation] [Case.creation_again]
     ≡ₚ [Case.creation]
  /\ exists after,
       save Case.world [Case.creation_again] (Some 1%Z) []
       = (Ok (after, [Case.creation]), []).
Proof.
  destruct (idempotent_event_identity Case.world
    Case.creation Case.creation_again eq_refl eq_refl eq_refl eq_refl)
    as (_ & _ & _ & Hset & Hmerge & Hsave).
  split; [exact Hset|]. split.
  - destruct (Hmerge [Case.creation]) as (_ & _ & _ & Hperm); [left|].
    apply Hperm. by intros l.
  - destruct (Hsave [Case.creation] 1%Z Case.created_submission [])
      as [_ Hreplay].
    + by intros l.
    + left.
    + intros p Hp. apply list_elem_of_singleton in Hp. by subst.
    + reflexivity.
    + eexists. refine (proj1 (Hreplay _ [Case.creation] [] _)).
      reflexivity.
Defined.

(** The claim of C4 fails on the code: the events are sorted by creation
    time alone.  Of two events of the same time, the one that the set
    yields first is applied first.  Where sets are iterated in the order
    opposite to insertion, the event with the greater identifier comes
    first; where they are iterated in insertion order, the outcome follows
    the order in which the events were passed. *)
Lemma merge_events_tie_counterexample :
  Event.created Sample.approval_at_7 = Event.created Sample.rejection_at_7
  /\ String.ltb (event_id Sample.world_rev Sample.approval_at_7)
                (event_id Sample.world_rev Sample.rejection_at_7) = true
  /\ iterates_members Sample.world_rev
  /\ merge_events Sample.world_rev []
       [Sample.approval_at_7; Sample.rejection_at_7]
     = [Sample.rejection_at_7; Sample.approval_at_7]
  /\ iterates_members Sample.world
  /\ merge_events Sample.world []
       [Sample.approval_at_7; Sample.rejection_at_7]
     ≠ merge_events Sample.world []
         [Sample.rejection_at_7; Sample.approval_at_7].
Proof.
  split; [reflexivity|]. split; [reflexivity|].
  split; [intros l; apply reverse_Permutation|].
  split; [reflexivity|]. split; [by intros l|].
  vm_compute. discriminate.
Qed.

Lemma event_eq_ext (x x' : Externals) (a b : Event.t) :
  event_digest x' = event_digest x ->
  str_hash x' = str_hash x ->
  event_eq x' a b = event_eq x a b.
Proof.
  intros Hd Hh. unfold event_eq, event_hash, event_id. by rewrite Hd, Hh.
Qed.

(** C4 (amended).  Within one [save] call the deduplicated union of the
    prior and the new events is applied in ascending order of creation
    time.  The sort is stable and looks at the creation time only: events
    of the same time are applied in the order in which the set yields
    them, whatever their identifiers.  When the events are pairwise
    distinct and so are their creation times, the order of application does
    not depend on the order in which the events were passed, nor on the
    order in which sets are iterated. *)
Theorem merge_events_order (x : Externals) (prior events : list Event.t) :
  iterates_members x ->
  Sorted (key_le Event.created) (merge_events x prior events)
  /\ merge_events x prior events
     ≡ₚ set_union x (set_of x prior) (set_of x events)
  /\ (forall t,
        filter (fun e => Event.created e = t) (merge_events x prior events)
        = filter (fun e => Event.created e = t)
            (set_iter x (set_union x (set_of x prior) (set_of x events))))
  /\ (forall x' events',
        iterates_members x' ->
        event_digest x' = event_digest x ->
        str_hash x' = str_hash x ->
        events' ≡ₚ events ->
        (forall a b, a ∈ prior ++ events -> b ∈ prior ++ events ->
                     event_eq x a b = true -> a = b) ->
        (forall a b, a ∈ prior ++ events -> b ∈ prior ++ events ->
                     Event.created a = Event.created b -> a = b) ->
        merge_events x' prior events' = merge_events x prior events).
Proof.
  intros Hiter. unfold merge_events. split; [apply sorted_Sorted|].
  split; [by rewrite sorted_Permutation, (Hiter _)|].
  split; [intros t; apply sorted_stable|].
  intros x' events' Hiter' Hd Hh Hperm Hsame Htimes.
  assert (set_union x' (set_of x' prior) (set_of x' events')
          ≡ₚ set_union x (set_of x prior) (set_of x events)) as Hmembers.
  { apply NoDup_Permutation; [apply set_union_NoDup..|].
    intros a. rewrite !elem_of_set_union_iff; [by rewrite Hperm|done|].
    intros a' b'. rewrite Hperm, (event_eq_ext x x') by done.
    apply Hsame. }
  apply sorted_unique.
  - by rewrite (Hiter' _), (Hiter _).
  - assert (forall a,
      a ∈ set_iter x' (set_union x' (set_of x' prior) (set_of x' events'))
      -> a ∈ prior ++ events) as Hsub.
    { intros a. rewrite (Hiter' _), Hmembers. apply elem_of_set_union. }
    intros a b Ha Hb. apply Htimes; by apply Hsub.
Qed.

Lemma merge_events_order_witness :
  Sorted (key_le Event.created)
    (merge_events Sample.world Sample.stored_history
       Sample.approval_then_invalid)
  /\ merge_events Sample.world_rev Sample.stored_history
       (reverse Sample.approval_then_invalid)
     = merge_events Sample.world Sample.stored_history
         Sample.approval_then_invalid.
Proof.
  destruct (merge_events_order Sample.world Sample.stored_history
              Sample.approval_then_invalid) as (Hsorted & _ & _ & Hsame).
  { by intros l. }
  split; [exact Hsorted|].
  apply Hsame.
  - intros l. apply reverse_Permutation.
  - reflexivity.
  - reflexivity.
  - apply reverse_Permutation.
  - intros a b Ha Hb.
    apply list_elem_of_In in Ha, Hb. simpl in Ha, Hb.
    destruct Ha as [<-|[<-|[<-|[]]]], Hb as [<-|[<-|[<-|[]]]];
      first [reflexivity | intros Heq; vm_compute in Heq; discriminate Heq].
  - intros a b Ha Hb.
    apply list_elem_of_In in Ha, Hb. simpl in Ha, Hb.
    destruct Ha as [<-|[<-|[<-|[]]]], Hb as [<-|[<-|[<-|[]]]];
      first [reflexivity | intros Heq; discriminate Heq].
Defined.

(* ===================================================================== *)
(** ** Properties of authors *)
(* ===================================================================== *)

Local Open Scope string_scope.

Lemma string_app_cons (c : ascii) (a b : string) :
  String c a ++ b = String c (a ++ b).
Proof. reflexivity. Qed.

Lemma string_app_nil_l (a : string) : "" ++ a = a.
Proof. reflexivity. Qed.

Lemma string_app_assoc (a b c : string) : (a ++ b) ++ c = a ++ b ++ c.
Proof.
  induction a as [|ch a IH]; [done|].
  rewrite !string_app_cons. by f_equal.
Qed.

Lemma string_app_nil_r (a : string) : a ++ "" = a.
Proof.
  induction a as [|ch a IH]; [done|]. rewrite string_app_cons. by f_equal.
Qed.

Lemma replace_double_space_nonempty (s : string) :
  s ≠ "" -> Author.replace_double_space s ≠ "".
Proof.
  destruct s as [|c1 [|c2 s2]]; simpl; [done|done|].
  by destruct (_ && _)%bool.
Qed.

(** A stretch without spaces is copied. *)
Lemma replace_double_space_app (a t : string) :
  has_char " " a = false ->
  Author.replace_double_space (a ++ t) = a ++ Author.replace_double_space t.
Proof.
  induction a as [|c a IH]; [done|]. simpl. intros Hc.
  apply orb_false_iff in Hc as [Hc Ha].
  rewrite !string_app_cons. simpl.
  destruct (a ++ t) as [|c2 s2] eqn:E.
  - destruct a; [|done]. rewrite string_app_nil_l in E. by subst.
  - rewrite Hc. simpl. by rewrite <- IH.
Qed.

(** A single space is copied. *)
Lemma replace_double_space_sep (t : string) :
  match t with String " " _ => False | _ => True end ->
  Author.replace_double_space (" " ++ t)
  = " " ++ Author.replace_double_space t.
Proof.
  rewrite !string_app_cons, !string_app_nil_l.
  destruct t as [|c t]; simpl; [done|]. intros Hc.
  destruct (Ascii.eqb_spec c " ") as [->|]; [done|done].
Qed.

Lemma no_space_first (a : string) :
  has_char " " a = false ->
  match a with String " " _ => False | _ => True end.
Proof.
  destruct a as [|c a]; [done|]. simpl. intros Hc.
  apply orb_false_iff in Hc as [Hc _].
  destruct (Ascii.eqb_spec c " ") as [->|Hne]; [done|].
  destruct c as [[] [] [] [] [] [] [] []]; try done.
Qed.

Lemma no_space_head (a t : string) :
  has_char " " a = false -> a ≠ "" ->
  match a ++ t with String " " _ => False | _ => True end.
Proof.
  destruct a as [|c a]; [done|]. simpl. intros Hc _.
  apply orb_false_iff in Hc as [Hc _]. rewrite ?string_app_cons.
  destruct (Ascii.eqb_spec c " ") as [->|Hne]; [done|].
  destruct c as [[] [] [] [] [] [] [] []]; try done.
Qed.

Lemma replace_double_space_id (a : string) :
  has_char " " a = false -> Author.replace_double_space a = a.
Proof.
  intros Ha. rewrite <- (string_app_nil_r a) at 1.
  rewrite replace_double_space_app by done. simpl. apply string_app_nil_r.
Qed.

Lemma replace_double_space_tail (s : string) :
  has_char " " s = false ->
  Author.replace_double_space (" " ++ s) = " " ++ s.
Proof.
  intros Hs. rewrite replace_double_space_sep.
  - by rewrite replace_double_space_id.
  - by apply no_space_first.
Qed.

(** X1.  The canonical name of an author whose forename, initials and
    surname have no spaces: the parts joined by single spaces, where
    empty initials leave no gap, followed by the affiliation in
    parentheses if there is one. *)
Theorem canonical_name (a : Author.t) :
  has_char " " (Author.forename a) = false ->
  has_char " " (Author.initials a) = false ->
  has_char " " (Author.surname a) = false ->
  Author.canonical a
  = (Author.forename a
     ++ (if String.eqb (Author.initials a) "" then ""
         else " " ++ Author.initials a)
     ++ " " ++ Author.surname a)
    ++ (if String.eqb (Author.affiliation a) "" then ""
        else " (" ++ Author.affiliation a ++ ")").
Proof.
  intros Hf Hi Hs. unfold Author.canonical.
  assert (Author.replace_double_space
            (Author.forename a ++ " " ++ Author.initials a ++ " "
             ++ Author.surname a)
          = Author.forename a
            ++ (if String.eqb (Author.initials a) "" then ""
                else " " ++ Author.initials a)
            ++ " " ++ Author.surname a) as ->.
  { rewrite replace_double_space_app by done. f_equal.
    destruct (String.eqb_spec (Author.initials a) "") as [->|Hne].
    - rewrite !string_app_cons, !string_app_nil_l. simpl.
      by rewrite replace_double_space_id.
    - rewrite replace_double_space_sep by by apply no_space_head.
      rewrite replace_double_space_app by done.
      by rewrite replace_double_space_tail. }
  destruct (String.eqb (Author.affiliation a) ""); [|done].
  by rewrite string_app_nil_r.
Qed.

Lemma canonical_name_witness :
  Author.canonical Case.paulson = "Robert Paulson (FC)".
Proof.
  exact (canonical_name Case.paulson eq_refl eq_refl eq_refl).
Defined.

Lemma canonical_nonempty (a : Author.t) : Author.canonical a ≠ "".
Proof.
  unfold Author.canonical.
  assert (Author.replace_double_space
            (Author.forename a ++ " " ++ Author.initials a ++ " "
             ++ Author.surname a) ≠ "") as Hname.
  { apply replace_double_space_nonempty.
    by destruct (Author.forename a). }
  destruct (String.eqb (Author.affiliation a) ""); [done|].
  by destruct (Author.replace_double_space _).
Qed.

(** X2.  After [__post_init__] an author has a display name that is not
    empty, and running [__post_init__] again (as when the author is built
    anew from its own fields) changes nothing. *)
Theorem post_init_display (sha1 : string -> string) (a : Author.t) :
  Author.given (Author.display (Author.post_init sha1 a)) = true
  /\ Author.post_init sha1 (Author.post_init sha1 a)
     = Author.post_init sha1 a.
Proof.
  assert (Author.given (Author.display (Author.post_init sha1 a)) = true)
    as Hd.
  { simpl. destruct (Author.given (Author.display a)) eqn:E; [done|].
    simpl. apply negb_true_iff, String.eqb_neq, canonical_nonempty. }
  split; [done|].
  unfold Author.post_init at 1. rewrite Hd.
  destruct a as [o f s i af em ident disp]. unfold Author.post_init.
  simpl. f_equal.
  destruct (Author.given ident) eqn:E; simpl; [by rewrite E|].
  by destruct (negb _).
Qed.

(* ===================================================================== *)
(** ** Further properties of the compilation views *)
(* ===================================================================== *)

Lemma split_dcolon_nonempty (s cur : string) : split_dcolon cur s ≠ [].
Proof.
  revert cur. induction s as [|c1 s1 IH]; intros cur; simpl; [done|].
  destruct s1 as [|c2 s2]; [done|].
  destruct (_ && _)%bool; [done|apply IH].
Qed.

Lemma split_dcolon_step (cur : string) (c1 c2 : ascii) (s2 : string) :
  split_dcolon cur (String c1 (String c2 s2))
  = if (Ascii.eqb c1 ":" && Ascii.eqb c2 ":")%bool
    then cur :: split_dcolon "" s2
    else split_dcolon (cur ++ String c1 "") (String c2 s2).
Proof. reflexivity. Qed.

(** Joining the pieces with the separator gives the string back. *)
Lemma split_dcolon_concat (n : nat) (s cur : string) :
  (String.length s <= n)%nat ->
  String.concat "::" (split_dcolon cur s) = cur ++ s.
Proof.
  revert s cur. induction n as [|n IH]; intros s cur Hn.
  { destruct s; [|simpl in Hn; lia]. simpl. by rewrite string_app_nil_r. }
  destruct s as [|c1 [|c2 s2]].
  - simpl. by rewrite string_app_nil_r.
  - done.
  - simpl in Hn. rewrite split_dcolon_step.
    destruct (Ascii.eqb c1 ":" && Ascii.eqb c2 ":")%bool eqn:E.
    + apply andb_true_iff in E as [->%Ascii.eqb_eq ->%Ascii.eqb_eq].
      pose proof (split_dcolon_nonempty s2 "") as Hne.
      pose proof (IH s2 "" ltac:(lia)) as Hs2.
      destruct (split_dcolon "" s2) as [|p ps]; [done|].
      change (String.concat "::" (cur :: p :: ps))
        with (cur ++ "::" ++ String.concat "::" (p :: ps)).
      by rewrite Hs2.
    + rewrite (IH (String c2 s2)) by (simpl; lia).
      by rewrite string_app_assoc.
Qed.

Lemma split_concat (s : string) : String.concat "::" (split s) = s.
Proof. by apply (split_dcolon_concat (String.length s)). Qed.

(** Without a colon there is nothing to cut. *)
Lemma split_dcolon_no_colon (s cur : string) :
  has_char ":" s = false -> split_dcolon cur s = [cur ++ s].
Proof.
  revert cur. induction s as [|c1 s1 IH]; intros cur; simpl.
  { by rewrite string_app_nil_r. }
  intros Hc. apply orb_false_iff in Hc as [Hc Hs1]. rewrite Hc. simpl.
  destruct s1 as [|c2 s2]; [done|].
  rewrite IH by done. by rewrite string_app_assoc.
Qed.

(** In a list in order, nothing is later than the last element. *)
Lemma sorted_last {A} (key : A -> Z) (l : list A) (z : A) :
  Sorted (key_le key) l -> last l = Some z ->
  forall a, a ∈ l -> (key a <= key z)%Z.
Proof.
  intros Hl. apply Sorted_StronglySorted in Hl; [|apply key_le_trans].
  induction Hl as [|b l Hl IH Hb]; intros Hlast a Ha.
  { by apply elem_of_nil in Ha. }
  destruct l as [|b' l'].
  - injection Hlast as ->. apply list_elem_of_singleton in Ha as ->. lia.
  - apply elem_of_cons in Ha as [->|Ha]; [|by apply IH].
    rewrite Forall_forall in Hb. etrans; [apply (Hb b'); left|].
    apply IH; [done|left].
Qed.

Lemma find_is_Some {A} (f : A -> bool) (l : list A) (a : A) :
  a ∈ l -> f a = true -> is_Some (List.find f l).
Proof.
  intros Ha Hf. destruct (List.find f l) eqn:E; [by eexists|].
  apply list_elem_of_In in Ha.
  by rewrite (find_none f l E a Ha) in Hf.
Qed.

(** X3.  The identifier of a derived compilation is the process identifier
    of the latest COMPILATION record: joining what [from_processes] has
    split gives the identifier back. *)
Theorem compilation_identifier_round_trip
    (processes : list ProcessStatus.t) (latest : ProcessStatus.t)
    (c : Compilation.t) :
  last (Compilation.compilation_processes processes) = Some latest ->
  Compilation.from_processes processes = Ok (Some c) ->
  compilation_identifier c = ProcessStatus.process_identifier latest.
Proof.
  intros Hlast. unfold Compilation.from_processes. rewrite Hlast.
  pose proof (split_concat (ProcessStatus.process_identifier latest))
    as Hjoin.
  destruct (split (ProcessStatus.process_identifier latest))
    as [|p1 [|p2 [|p3 [|p4 l]]]]; try done.
  simpl. intros Hc.
  assert (Compilation.source_id c = p1 /\ Compilation.checksum c = p2
          /\ Compilation.output_format c = p3) as (H1 & H2 & H3).
  { destruct (ProcessStatus.finished _); [destruct (List.find _ _)|];
      simpl in Hc; try done; by injection Hc as <-. }
  unfold compilation_identifier. by rewrite H1, H2, H3.
Qed.

Lemma compilation_identifier_round_trip_witness :
  exists c,
    Compilation.from_processes Sample.two_attempts = Ok (Some c)
    /\ compilation_identifier c = Sample.pid_y.
Proof.
  eexists. split; [reflexivity|].
  exact (compilation_identifier_round_trip Sample.two_attempts
           (Sample.record Sample.pid_y ProcessStatus.FAILED 5) _
           eq_refl eq_refl).
Defined.

(** X4.  [from_processes] returns a compilation whenever the identifier of
    the latest COMPILATION record has three parts and either that record
    is REQUESTED or some COMPILATION record with its identifier is; the
    compilation has these parts and the status of the latest record. *)
Theorem from_processes_returns
    (processes : list ProcessStatus.t) (latest : ProcessStatus.t)
    (p1 p2 p3 : string) :
  last (Compilation.compilation_processes processes) = Some latest ->
  split (ProcessStatus.process_identifier latest) = [p1; p2; p3] ->
  (ProcessStatus.status latest = ProcessStatus.REQUESTED
   \/ exists p,
        p ∈ processes
        /\ ProcessStatus.process p = ProcessStatus.COMPILATION
        /\ ProcessStatus.process_identifier p
           = ProcessStatus.process_identifier latest
        /\ ProcessStatus.status p = ProcessStatus.REQUESTED) ->
  exists c,
    Compilation.from_processes processes = Ok (Some c)
    /\ Compilation.source_id c = p1
    /\ Compilation.checksum c = p2
    /\ Compilation.output_format c = p3
    /\ Compilation.status c
       = Compilation.status_map (ProcessStatus.status latest).
Proof.
  intros Hlast Hsplit Hreq. unfold Compilation.from_processes.
  rewrite Hlast, Hsplit. simpl.
  destruct (ProcessStatus.finished (ProcessStatus.status latest)) eqn:Hfin.
  - destruct Hreq as [Hst|(p & Hp & Hproc & Hid & Hst)].
    { rewrite Hst in Hfin. done. }
    assert (is_Some (List.find (Compilation.is_request_of latest)
              (reverse (Compilation.compilation_processes processes))))
      as [q ->].
    { apply (find_is_Some _ _ p).
      - apply elem_of_reverse. unfold Compilation.compilation_processes.
        rewrite elem_of_sorted, list_elem_of_filter. done.
      - unfold Compilation.is_request_of.
        rewrite Hid, String.eqb_refl, bool_decide_eq_true_2; done. }
    simpl. by eexists.
  - simpl. by eexists.
Qed.

Lemma from_processes_returns_witness :
  exists c,
    Compilation.from_processes Sample.shuffled_attempts = Ok (Some c)
    /\ Compilation.source_id c = "1234"
    /\ Compilation.checksum c = "qwer67890uiop"
    /\ Compilation.output_format c = "pdf"
    /\ Compilation.status c = Compilation.FAILED.
Proof.
  apply (from_processes_returns Sample.shuffled_attempts
           (Sample.record Sample.pid_y ProcessStatus.FAILED 5)
           "1234" "qwer67890uiop" "pdf"); try reflexivity.
  right. exists (Sample.record Sample.pid_y ProcessStatus.REQUESTED 4).
  split; [|done]. do 4 right. left.
Defined.

Lemma latest_is_last (processes : list ProcessStatus.t)
    (latest q : ProcessStatus.t) :
  last (Compilation.compilation_processes processes) = Some latest ->
  q ∈ Compilation.compilation_processes processes ->
  (ProcessStatus.created q <= ProcessStatus.created latest)%Z.
Proof.
  intros Hlast Hq.
  apply (sorted_last ProcessStatus.created
           (Compilation.compilation_processes processes)).
  - apply sorted_Sorted.
  - exact Hlast.
  - exact Hq.
Qed.

(** X5.  The times of a derived compilation.  While the latest record is
    REQUESTED the compilation has no end and starts with that record.
    Once the latest record is terminal the compilation ends with it and
    starts with a REQUESTED record of the same identifier, which is not
    later: a compilation never ends before it starts. *)
Theorem compilation_times
    (processes : list ProcessStatus.t) (latest : ProcessStatus.t)
    (c : Compilation.t) :
  last (Compilation.compilation_processes processes) = Some latest ->
  Compilation.from_processes processes = Ok (Some c) ->
  (ProcessStatus.status latest = ProcessStatus.REQUESTED ->
     Compilation.end_time c = None
     /\ Compilation.start_time c = ProcessStatus.created latest
     /\ Compilation.status c = Compilation.IN_PROGRESS)
  /\ (ProcessStatus.status latest ≠ ProcessStatus.REQUESTED ->
        Compilation.end_time c = Some (ProcessStatus.created latest)
        /\ (Compilation.start_time c <= ProcessStatus.created latest)%Z
        /\ Compilation.status c ≠ Compilation.IN_PROGRESS
        /\ exists p,
             p ∈ processes
             /\ ProcessStatus.process_identifier p
                = ProcessStatus.process_identifier latest
             /\ ProcessStatus.status p = ProcessStatus.REQUESTED
             /\ ProcessStatus.created p = Compilation.start_time c).
Proof.
  intros Hlast. unfold Compilation.from_processes. rewrite Hlast.
  destruct (unpack3 _) as [[[p1 p2] p3]|]; [|done]. simpl.
  destruct (ProcessStatus.status latest) eqn:Hst; simpl.
  - intros [= <-]. simpl. split; [done|]. by intros ?.
  - destruct (List.find _ _) as [q|] eqn:Hfind; [|done].
    intros [= <-]. simpl. split; [done|]. intros _.
    apply find_some in Hfind as [Hq Hreq].
    apply list_elem_of_In in Hq. rewrite elem_of_reverse in Hq.
    apply andb_true_iff in Hreq as [Hid Hstq].
    apply String.eqb_eq in Hid. apply bool_decide_eq_true in Hstq.
    split; [done|]. split; [|split; [done|]].
    + by apply (latest_is_last processes latest q).
    + exists q. by apply compilation_processes_elem in Hq as [Hq _].
  - destruct (List.find _ _) as [q|] eqn:Hfind; [|done].
    intros [= <-]. simpl. split; [done|]. intros _.
    apply find_some in Hfind as [Hq Hreq].
    apply list_elem_of_In in Hq. rewrite elem_of_reverse in Hq.
    apply andb_true_iff in Hreq as [Hid Hstq].
    apply String.eqb_eq in Hid. apply bool_decide_eq_true in Hstq.
    split; [done|]. split; [|split; [done|]].
    + by apply (latest_is_last processes latest q).
    + exists q. by apply compilation_processes_elem in Hq as [Hq _].
Qed.

Lemma compilation_times_witness :
  exists c,
    Compilation.from_processes Sample.shuffled_attempts = Ok (Some c)
    /\ Compilation.end_time c = Some 5%Z
    /\ (Compilation.start_time c <= 5)%Z.
Proof.
  eexists. split; [reflexivity|].
  destruct (compilation_times Sample.shuffled_attempts
              (Sample.record Sample.pid_y ProcessStatus.FAILED 5) _
              eq_refl eq_refl) as [_ Hdone].
  destruct Hdone as (Hend & Hstart & _); [discriminate|].
  split; [exact Hend|exact Hstart].
Defined.

(** X6.  A latest COMPILATION record whose identifier has no colon makes
    [from_processes] raise [ValueError]: the identifier does not unpack
    into source, checksum and format. *)
Theorem from_processes_bad_identifier
    (processes : list ProcessStatus.t) (latest : ProcessStatus.t) :
  last (Compilation.compilation_processes processes) = Some latest ->
  has_char ":" (ProcessStatus.process_identifier latest) = false ->
  Compilation.from_processes processes = Raise ValueError.
Proof.
  intros Hlast Hc. unfold Compilation.from_processes, split.
  by rewrite Hlast, split_dcolon_no_colon.
Qed.

Lemma from_processes_bad_identifier_witness :
  Compilation.from_processes
    [Sample.record "1234" ProcessStatus.REQUESTED 1] = Raise ValueError.
Proof.
  exact (from_processes_bad_identifier
           [Sample.record "1234" ProcessStatus.REQUESTED 1]
           (Sample.record "1234" ProcessStatus.REQUESTED 1)
           eq_refl eq_refl).
Defined.

(** *** The scan of [get_compilations] *)

Local Open Scope list_scope.

(** The COMPILATION records in order of creation, for short. *)
Lemma compilation_processes_Forall (processes : list ProcessStatus.t) :
  Forall (fun p => ProcessStatus.process p = ProcessStatus.COMPILATION)
         (Compilation.compilation_processes processes).
Proof.
  apply Forall_forall. intros p Hp.
  by apply compilation_processes_elem in Hp as [_ Hp].
Qed.

Lemma compilation_processes_Sorted (processes : list ProcessStatus.t) :
  Sorted (key_le ProcessStatus.created)
         (Compilation.compilation_processes processes).
Proof. apply sorted_Sorted. Qed.

Lemma Sorted_suffix {A} (R : relation A) (pre run : list A) :
  Transitive R -> Sorted R (pre ++ run) -> Sorted R run.
Proof.
  intros HR H. apply Sorted_StronglySorted in H; [|done].
  apply StronglySorted_app_1_r in H. by apply StronglySorted_Sorted.
Qed.

(** [from_processes] looks at the COMPILATION records in order only. *)
Lemma from_processes_sorted (processes : list ProcessStatus.t) :
  Compilation.from_processes (Compilation.compilation_processes processes)
  = Compilation.from_processes processes.
Proof.
  unfold Compilation.from_processes.
  by rewrite (compilation_processes_id
                (Compilation.compilation_processes processes)
                (compilation_processes_Forall processes)
                (compilation_processes_Sorted processes)).
Qed.

Lemma find_app {A} (f : A -> bool) (l1 l2 : list A) :
  List.find f (l1 ++ l2)
  = match List.find f l1 with
    | Some a => Some a
    | None => List.find f l2
    end.
Proof.
  induction l1 as [|a l1 IH]; simpl; [done|]. by destruct (f a).
Qed.

(** What [from_processes] makes of a run at the end of the records is what
    it makes of all records, if it makes anything of the run. *)
Lemma from_processes_suffix (pre run : list ProcessStatus.t)
    (c : option Compilation.t) :
  Forall (fun p => ProcessStatus.process p = ProcessStatus.COMPILATION)
         (pre ++ run) ->
  Sorted (key_le ProcessStatus.created) (pre ++ run) ->
  run ≠ [] ->
  Compilation.from_processes run = Ok c ->
  Compilation.from_processes (pre ++ run) = Ok c.
Proof.
  intros Hall Hsorted Hrun. unfold Compilation.from_processes.
  rewrite (compilation_processes_id (pre ++ run)) by done.
  rewrite (compilation_processes_id run);
    [|by apply Forall_app in Hall as [_ ?]
     |by apply (Sorted_suffix _ pre run (key_le_trans _))].
  rewrite last_app.
  destruct (last run) as [latest|] eqn:Hlast;
    [|by apply last_None in Hlast].
  destruct (unpack3 _) as [[[p1 p2] p3]|]; [|done]. simpl.
  destruct (ProcessStatus.finished _); [|done].
  rewrite reverse_app, find_app.
  by destruct (List.find _ (reverse run)).
Qed.

(** When the scan gets through, its last value is made of a run at the end
    of what it has scanned. *)
Lemma get_compilations_from_last (ps on_deck : list ProcessStatus.t)
    (cs : list (option Compilation.t)) :
  Forall (fun p => ProcessStatus.process p = ProcessStatus.COMPILATION) ps ->
  Submission.get_compilations_from on_deck ps = Ok cs ->
  on_deck ++ ps ≠ [] ->
  exists pre run c,
    on_deck ++ ps = pre ++ run /\ run ≠ []
    /\ Compilation.from_processes run = Ok c /\ last cs = Some c.
Proof.
  revert on_deck cs. induction ps as [|p ps IH]; intros on_deck cs Hall.
  - simpl. rewrite app_nil_r. intros Hrun Hne.
    destruct on_deck as [|q on_deck]; [done|].
    destruct (Compilation.from_processes (q :: on_deck)) as [c|] eqn:Hc;
      [|done].
    injection Hrun as <-. by exists [], (q :: on_deck), c.
  - apply Forall_cons_1 in Hall as [Hp Hall]. simpl.
    rewrite (bool_decide_eq_true_2 _ Hp). simpl. intros Hrun _.
    assert (forall od,
      Submission.get_compilations_from (od ++ [p]) ps = Ok cs ->
      exists pre run c,
        od ++ p :: ps = pre ++ run /\ run ≠ []
        /\ Compilation.from_processes run = Ok c /\ last cs = Some c)
      as Hkeep.
    { intros od Hod. apply IH in Hod; [|done|by destruct od].
      destruct Hod as (pre & run & c & Heq & ?).
      exists pre, run, c. by rewrite <- Heq, <- app_assoc. }
    destruct (last on_deck) as [top|]; [|by apply Hkeep].
    destruct (_ || _)%bool; [|by apply Hkeep].
    destruct (Compilation.from_processes on_deck) as [c0|]; [|done].
    simpl in Hrun.
    destruct (Submission.get_compilations_from [p] ps) as [cs'|] eqn:Hcs';
      [|done].
    injection Hrun as <-.
    apply IH in Hcs' as (pre & run & c & Heq & Hne & Hc & Hlast);
      [|done|done].
    exists (on_deck ++ pre), run, c.
    rewrite <- app_assoc, <- Heq. repeat split; try done.
    destruct cs'; [done|]. by rewrite last_cons, Hlast.
Qed.

(** X7.  Whenever [compilations] returns, [latest_compilation] returns its
    last entry, and [None] if it is empty. *)
Theorem latest_compilation_is_last (s : Submission.t)
    (cs : list (option Compilation.t)) :
  Submission.compilations s = Ok cs ->
  Submission.latest_compilation s
  = Ok (match last cs with Some c => c | None => None end).
Proof.
  unfold Submission.compilations, Submission.latest_compilation.
  rewrite get_compilations_scan, <- from_processes_sorted.
  pose proof (compilation_processes_Forall (Submission.processes s)) as Hall.
  pose proof (compilation_processes_Sorted (Submission.processes s))
    as Hsorted.
  destruct (Compilation.compilation_processes (Submission.processes s))
    as [|p L] eqn:E.
  - simpl. by intros [= <-].
  - intros Hrun.
    apply get_compilations_from_last in Hrun
      as (pre & run & c & Heq & Hne & Hc & Hlast); [|done..].
    simpl in Heq. rewrite Hlast, Heq.
    rewrite Heq in Hall, Hsorted. by apply from_processes_suffix.
Qed.

Lemma latest_compilation_is_last_witness :
  Submission.latest_compilation
    (Sample.bare Submission.WORKING ∅ Sample.shuffled_attempts ∅)
  = Ok (Some {| Compilation.source_id := "1234";
                Compilation.checksum := "qwer67890uiop";
                Compilation.output_format := "pdf";
                Compilation.start_time := 4;
                Compilation.end_time := Some 5%Z;
                Compilation.status := Compilation.FAILED |}).
Proof.
  exact (latest_compilation_is_last
           (Sample.bare Submission.WORKING ∅ Sample.shuffled_attempts ∅)
           _ eq_refl).
Defined.

Lemma raises_bind {E A B} (m : Result E A) (f : A -> Result E B) :
  (forall a, raises (f a)) -> raises (m ≫= f).
Proof.
  intros Hf. destruct m as [a|e]; simpl; [apply Hf|by exists e].
Qed.

Lemma raises_bind_l {E A B} (m : Result E A) (f : A -> Result E B) :
  raises m -> raises (m ≫= f).
Proof. intros [e ->]. by exists e. Qed.

(** A result alone, without the request that led to it, is not a
    compilation. *)
Lemma from_processes_result_alone (b : ProcessStatus.t) :
  ProcessStatus.process b = ProcessStatus.COMPILATION ->
  ProcessStatus.finished (ProcessStatus.status b) = true ->
  raises (Compilation.from_processes [b]).
Proof.
  intros Hb Hfin. unfold Compilation.from_processes.
  rewrite compilation_processes_id by by repeat constructor.
  simpl. apply raises_bind. intros [[p1 p2] p3]. rewrite Hfin.
  unfold Compilation.is_request_of. simpl.
  destruct (ProcessStatus.status b); [done|..];
    rewrite andb_false_r; by exists UnboundLocalError.
Qed.

(** One step of the scan, at a COMPILATION record. *)
Lemma get_compilations_from_step (on_deck rest : list ProcessStatus.t)
    (p : ProcessStatus.t) :
  ProcessStatus.process p = ProcessStatus.COMPILATION ->
  Submission.get_compilations_from on_deck (p :: rest)
  = match last on_deck with
    | Some top =>
        if (ProcessStatus.finished (ProcessStatus.status top)
            || negb (String.eqb (ProcessStatus.process_identifier p)
                                (ProcessStatus.process_identifier top)))%bool
        then c ← Compilation.from_processes on_deck;
             cs ← Submission.get_compilations_from [p] rest;
             Ok (c :: cs)
        else Submission.get_compilations_from (on_deck ++ [p]) rest
    | None => Submission.get_compilations_from (on_deck ++ [p]) rest
    end.
Proof.
  intros Hp. simpl. by rewrite (bool_decide_eq_true_2 _ Hp).
Qed.

Lemma get_compilations_from_result (b : ProcessStatus.t)
    (post : list ProcessStatus.t) :
  Forall (fun p => ProcessStatus.process p = ProcessStatus.COMPILATION)
         (b :: post) ->
  ProcessStatus.finished (ProcessStatus.status b) = true ->
  raises (Submission.get_compilations_from [b] post).
Proof.
  intros Hall Hfin. apply Forall_cons_1 in Hall as [Hb Hall].
  destruct Hall as [|p post Hp _].
  - simpl. apply raises_bind_l. by apply from_processes_result_alone.
  - rewrite get_compilations_from_step by done.
    cbv beta iota delta [last]. rewrite Hfin. simpl.
    apply raises_bind_l. by apply from_processes_result_alone.
Qed.

(** X8.  Two terminal COMPILATION records in a row (a result reported
    twice, say) make [compilations] raise: the second one starts a run
    that has no REQUESTED record. *)
Theorem compilations_repeated_result (s : Submission.t)
    (pre post : list ProcessStatus.t) (a b : ProcessStatus.t) :
  Compilation.compilation_processes (Submission.processes s)
    = pre ++ a :: b :: post ->
  ProcessStatus.finished (ProcessStatus.status a) = true ->
  ProcessStatus.finished (ProcessStatus.status b) = true ->
  raises (Submission.compilations s).
Proof.
  intros Hprocs Ha Hb. unfold Submission.compilations.
  rewrite get_compilations_scan.
  pose proof (compilation_processes_Forall (Submission.processes s)) as Hall.
  rewrite Hprocs in *. clear Hprocs.
  apply Forall_app in Hall as [Hpre Hall].
  apply Forall_cons_1 in Hall as [Hca Hall].
  assert (forall on_deck,
            last on_deck = Some a ->
            raises (Submission.get_compilations_from on_deck (b :: post)))
    as Hat_b.
  { intros on_deck Hlast.
    rewrite get_compilations_from_step, Hlast, Ha
      by by apply Forall_cons_1 in Hall as [? _].
    simpl. apply raises_bind. intros c. apply raises_bind_l.
    by apply get_compilations_from_result. }
  generalize (@nil ProcessStatus.t) as on_deck.
  induction Hpre as [|p pre Hp _ IH]; intros on_deck.
  - rewrite app_nil_l, get_compilations_from_step by done.
    destruct (last on_deck) as [top|];
      [|apply Hat_b; by rewrite last_snoc].
    destruct (_ || _)%bool; [|apply Hat_b; by rewrite last_snoc].
    apply raises_bind. intros c. apply raises_bind_l. by apply Hat_b.
  - rewrite <- app_comm_cons, get_compilations_from_step by done.
    destruct (last on_deck) as [top|]; [|apply IH].
    destruct (_ || _)%bool; [|apply IH].
    apply raises_bind. intros c. apply raises_bind_l. apply IH.
Qed.

Lemma compilations_repeated_result_witness :
  raises (Submission.compilations
            (Sample.bare Submission.WORKING ∅ Case.repeated_result ∅))
  /\ is_ok (Submission.latest_compilation
              (Sample.bare Submission.WORKING ∅ Case.repeated_result ∅))
     = true.
Proof.
  split; [|reflexivity].
  exact (compilations_repeated_result
           (Sample.bare Submission.WORKING ∅ Case.repeated_result ∅)
           [Sample.record Sample.pid_x ProcessStatus.REQUESTED 1] []
           (Sample.record Sample.pid_x ProcessStatus.SUCCEEDED 2)
           (Sample.record Sample.pid_x ProcessStatus.SUCCEEDED 3)
           eq_refl eq_refl eq_refl).
Defined.

Lemma from_processes_Some (run : list ProcessStatus.t)
    (c : option Compilation.t) :
  run ≠ [] ->
  Forall (fun p => ProcessStatus.process p = ProcessStatus.COMPILATION) run ->
  Compilation.from_processes run = Ok c -> is_Some c.
Proof.
  intros Hne Hall. unfold Compilation.from_processes.
  destruct (last (Compilation.compilation_processes run)) as [latest|]
    eqn:Hlast.
  - destruct (unpack3 _) as [[[p1 p2] p3]|]; [|done]. simpl.
    destruct (ProcessStatus.finished _); [destruct (List.find _ _)|];
      simpl; try done; intros [= <-]; by eexists.
  - apply last_None in Hlast. destruct run as [|p run]; [done|].
    assert (p ∈ Compilation.compilation_processes (p :: run)) as Hp.
    { unfold Compilation.compilation_processes.
      rewrite elem_of_sorted, list_elem_of_filter. split; [|left].
      by apply Forall_cons_1 in Hall as [? _]. }
    rewrite Hlast in Hp. by apply elem_of_nil in Hp.
Qed.

Lemma get_compilations_from_entries (ps on_deck : list ProcessStatus.t)
    (cs : list (option Compilation.t)) :
  Forall (fun p => ProcessStatus.process p = ProcessStatus.COMPILATION) ps ->
  Forall (fun p => ProcessStatus.process p = ProcessStatus.COMPILATION)
         on_deck ->
  Submission.get_compilations_from on_deck ps = Ok cs ->
  Forall is_Some cs
  /\ (length cs + (if on_deck is [] then 1 else 0) <= length ps + 1)%nat
  /\ (cs = [] -> on_deck ++ ps = []).
Proof.
  intros Hps. revert on_deck cs.
  induction Hps as [|p ps Hp Hps IH]; intros on_deck cs Hdeck.
  - simpl. destruct on_deck as [|q on_deck]; [by intros [= <-]|].
    destruct (Compilation.from_processes (q :: on_deck)) as [c|] eqn:Hc;
      [|done].
    intros [= <-]. split; [|split; [simpl; lia|done]].
    constructor; [|done]. by apply (from_processes_Some (q :: on_deck)).
  - rewrite get_compilations_from_step by done.
    assert (forall cs,
      Submission.get_compilations_from (on_deck ++ [p]) ps = Ok cs ->
      Forall is_Some cs
      /\ (length cs + (if on_deck is [] then 1 else 0)
          <= length (p :: ps) + 1)%nat
      /\ (cs = [] -> on_deck ++ p :: ps = [])) as Hkeep.
    { intros cs' Hrun.
      apply IH in Hrun as (Hsome & Hlen & Hnil);
        [|apply Forall_app; split; [done|by constructor]].
      split; [done|]. split.
      - destruct on_deck; simpl in *; lia.
      - intros Hcs. apply Hnil in Hcs. by destruct on_deck. }
    destruct (last on_deck) as [top|] eqn:Hlast; [|by apply Hkeep].
    destruct (_ || _)%bool; [|by apply Hkeep].
    destruct (Compilation.from_processes on_deck) as [c0|] eqn:Hc0; [|done].
    simpl.
    destruct (Submission.get_compilations_from [p] ps) as [cs'|] eqn:Hcs';
      [|done].
    intros [= <-].
    apply IH in Hcs' as (Hsome & Hlen & _); [|by repeat constructor].
    assert (on_deck ≠ []) as Hne by (by intros ->).
    split; [|split; [|done]].
    + constructor; [|done]. by apply (from_processes_Some on_deck).
    + destruct on_deck; [done|]. simpl in *. lia.
Qed.

(** X9.  When [compilations] returns, every entry is a compilation (never
    [None]), there are no more entries than COMPILATION records, and there
    is none only if there is no such record. *)
Theorem compilations_entries (s : Submission.t)
    (cs : list (option Compilation.t)) :
  Submission.compilations s = Ok cs ->
  Forall is_Some cs
  /\ (length cs
      <= length (Compilation.compilation_processes (Submission.processes s)))
     %nat
  /\ (cs = []
      <-> Compilation.compilation_processes (Submission.processes s) = []).
Proof.
  unfold Submission.compilations. rewrite get_compilations_scan.
  intros Hrun.
  pose proof (get_compilations_from_entries _ [] cs
    (compilation_processes_Forall (Submission.processes s))
    (Forall_nil_2 _) Hrun) as (Hsome & Hlen & Hnil).
  split; [done|]. split; [lia|]. split; [done|].
  intros Hempty. rewrite Hempty in Hrun. by injection Hrun as <-.
Qed.

Lemma compilations_entries_witness :
  exists cs,
    Submission.compilations
      (Sample.bare Submission.WORKING ∅ Sample.shuffled_attempts ∅) = Ok cs
    /\ Forall is_Some cs /\ (length cs <= 5)%nat.
Proof.
  eexists. split; [reflexivity|].
  destruct (compilations_entries
              (Sample.bare Submission.WORKING ∅ Sample.shuffled_attempts ∅)
              _ eq_refl) as (Hsome & Hlen & _).
  split; [exact Hsome|exact Hlen].
Defined.

(* ===================================================================== *)
(** ** Further properties of the request events *)
(* ===================================================================== *)

Lemma settles_status (e : Event.t) (r status : string) :
  settles e r status ->
  status = UserRequest.APPROVED \/ status = UserRequest.REJECTED
  \/ status = UserRequest.APPLIED.
Proof. intros [[_ ->]|[[_ ->]|[_ ->]]]; tauto. Qed.

(** The outcome of projecting an event that settles a request. *)
Lemma settles_project_ok (x : Externals) (e : Event.t) (r status : string)
    (s s' : Submission.t) :
  settles e r status ->
  project x e (Some s) = Ok s' ->
  exists req,
    Submission.user_requests s !! r = Some req
    /\ s' = Submission.set_user_requests
              (<[r := UserRequest.set_status status req]>
                 (Submission.user_requests s)) s.
Proof.
  intros Hsettles. rewrite (settles_project x e r status s Hsettles).
  unfold project_status.
  destruct (Submission.user_requests s !! r) as [req|]; [|done].
  intros [= <-]. by exists req.
Qed.

Lemma files_project (x : Externals) (e : Event.t) (req : UserRequest.t)
    (s : Submission.t) :
  files e req x -> project x e (Some s) = Ok (add_request x req s).
Proof.
  unfold project.
  by intros [(reason & -> & ->)|(cats & -> & ->)].
Qed.

(** X10.  The user requests of a submission stay filed under their own
    identifiers: if every request is the value of its [request_id] before
    an event is projected (or applied), so it is afterwards.  The events
    that settle a request do not change its identifier, and the events that
    file a request use the identifier of the request as the key. *)
Theorem project_keeps_request_ids (x : Externals) (e : Event.t)
    (submission : option Submission.t) (s' : Submission.t) :
  (forall s, submission = Some s -> keyed_by_request_id x s) ->
  (project x e submission = Ok s' -> keyed_by_request_id x s')
  /\ (apply x e submission = Ok s' -> keyed_by_request_id x s').
Proof.
  intros Hkeyed.
  assert (project x e submission = Ok s' -> keyed_by_request_id x s')
    as Hproject.
  { unfold project.
    destruct submission as [s|].
    - specialize (Hkeyed s eq_refl).
      assert (forall rid status,
                project_status rid status s = Ok s' ->
                keyed_by_request_id x s') as Hsettle.
      { intros [r0|] status; unfold project_status; [|done].
        destruct (Submission.user_requests s !! r0) as [req0|] eqn:Hr0;
          [|done].
        intros [= <-] r req. simpl. rewrite lookup_insert.
        case_decide as Hr; [|apply Hkeyed].
        subst. intros [= <-]. by apply Hkeyed in Hr0. }
      assert (forall req0,
                keyed_by_request_id x (add_request x req0 s)) as Hfile.
      { intros req0 r req. simpl. rewrite lookup_insert.
        case_decide as Hr; [|apply Hkeyed]. by intros [= <-]. }
      destruct (Event.command e); try apply Hsettle.
      + intros [= <-] r req. simpl. by rewrite lookup_empty.
      + intros [= <-]. apply Hfile.
      + intros [= <-]. apply Hfile.
    - destruct (Event.command e); try done.
      intros [= <-] r req. simpl. by rewrite lookup_empty. }
  split; [done|]. unfold apply.
  by destruct (validate x e submission).
Qed.

Lemma project_keeps_request_ids_witness :
  exists s',
    apply Sample.world Case.withdrawal_event (Some Case.published) = Ok s'
    /\ keyed_by_request_id Sample.world s'.
Proof.
  eexists. split; [reflexivity|].
  refine (proj2 (project_keeps_request_ids Sample.world
            Case.withdrawal_event (Some Case.published) _ _) eq_refl).
  intros s [= <-] r req Hr. simpl in Hr. by rewrite lookup_empty in Hr.
Defined.

(** X11.  Of two events that settle the same request, the later one
    decides: projecting the second after the first gives the state that
    projecting the second alone gives.  In particular projecting an event
    twice is projecting it once. *)
Theorem settle_last_wins (x : Externals) (e1 e2 : Event.t)
    (r status1 status2 : string) (s s1 : Submission.t) :
  settles e1 r status1 ->
  settles e2 r status2 ->
  project x e1 (Some s) = Ok s1 ->
  project x e2 (Some s1) = project x e2 (Some s).
Proof.
  intros H1 H2 Hs1.
  apply (settles_project_ok x e1 r status1 s s1 H1) in Hs1
    as (req & Hreq & ->).
  rewrite !(settles_project x e2 r status2 _ H2).
  unfold project_status. simpl.
  rewrite lookup_insert_eq, Hreq. f_equal.
  unfold Submission.set_user_requests. simpl.
  by rewrite insert_insert_eq.
Qed.

Lemma settle_last_wins_witness :
  project Sample.world
    (Sample.event Sample.system 11 false (RejectRequest (Some "r1")))
    (Some (Sample.bare Submission.PUBLISHED
             {["r1" := Sample.withdrawal UserRequest.APPROVED 6]} [] ∅))
  = project Sample.world
      (Sample.event Sample.system 11 false (RejectRequest (Some "r1")))
      (Some (Sample.bare Submission.PUBLISHED
               {["r1" := Sample.withdrawal UserRequest.PENDING 6]} [] ∅)).
Proof.
  apply (settle_last_wins Sample.world
           (Sample.event Sample.system 10 false (ApproveRequest (Some "r1")))
           _ "r1" UserRequest.APPROVED UserRequest.REJECTED).
  - left. by split.
  - right; left. by split.
  - vm_compute. reflexivity.
Defined.

(** X12.  Events that settle different requests can be projected in either
    order: the outcome is the same state, or the same [KeyError] if one of
    the requests is missing. *)
Theorem settle_commutes (x : Externals) (e1 e2 : Event.t)
    (r1 r2 status1 status2 : string) (s : Submission.t) :
  settles e1 r1 status1 ->
  settles e2 r2 status2 ->
  r1 ≠ r2 ->
  (s1 ← project x e1 (Some s); project x e2 (Some s1))
  = (s2 ← project x e2 (Some s); project x e1 (Some s2)).
Proof.
  intros H1 H2 Hne.
  rewrite (settles_project x e1 r1 status1 s H1),
    (settles_project x e2 r2 status2 s H2).
  unfold project_status.
  destruct (Submission.user_requests s !! r1) as [req1|] eqn:Hr1,
    (Submission.user_requests s !! r2) as [req2|] eqn:Hr2; simpl.
  - rewrite (settles_project x e2 r2 status2 _ H2),
      (settles_project x e1 r1 status1 _ H1).
    unfold project_status. simpl.
    rewrite !lookup_insert_ne, Hr1, Hr2 by done. f_equal.
    unfold Submission.set_user_requests. simpl.
    by rewrite insert_insert_ne.
  - rewrite (settles_project x e2 r2 status2 _ H2).
    unfold project_status. simpl. by rewrite lookup_insert_ne, Hr2.
  - rewrite (settles_project x e1 r1 status1 _ H1).
    unfold project_status. simpl. by rewrite lookup_insert_ne, Hr1.
  - done.
Qed.

Lemma settle_commutes_witness :
  (s1 ← project Sample.world
          (Sample.event Sample.system 10 false (ApproveRequest (Some "r1")))
          (Some Sample.stored_submission);
   project Sample.world
     (Sample.event Sample.system 11 false (ApplyRequest (Some "r0")))
     (Some s1))
  = (s2 ← project Sample.world
            (Sample.event Sample.system 11 false (ApplyRequest (Some "r0")))
            (Some Sample.stored_submission);
     project Sample.world
       (Sample.event Sample.system 10 false (ApproveRequest (Some "r1")))
       (Some s2)).
Proof.
  apply (settle_commutes Sample.world _ _ "r1" "r0"
           UserRequest.APPROVED UserRequest.APPLIED).
  - left. by split.
  - right; right. by split.
  - discriminate.
Defined.

Lemma filed_request_lookup (x : Externals) (e : Event.t)
    (req : UserRequest.t) (s : Submission.t) :
  files e req x ->
  exists s',
    project x e (Some s) = Ok s'
    /\ get_user_request s' (request_id_of x req) = Ok req.
Proof.
  intros Hfiles. exists (add_request x req s).
  split; [by apply files_project|].
  unfold get_user_request. simpl. by rewrite lookup_insert_eq.
Qed.

(** X13.  After an event that settles a request [r] has been projected,
    the submission has an active request exactly when [r] has been
    approved or another request was active before: rejecting or applying
    the only active request leaves none. *)
Theorem settle_activity (x : Externals) (e : Event.t) (r status : string)
    (s s' : Submission.t) :
  settles e r status ->
  project x e (Some s) = Ok s' ->
  (Submission.has_active_requests s' = true
   <-> status = UserRequest.APPROVED
       \/ exists r' req',
            r' ≠ r
            /\ Submission.user_requests s !! r' = Some req'
            /\ (UserRequest.status req' = UserRequest.PENDING
                \/ UserRequest.status req' = UserRequest.APPROVED)).
Proof.
  intros Hsettles Hs'.
  pose proof (settles_status e r status Hsettles) as Hstatus.
  apply (settles_project_ok x e r status s s' Hsettles) in Hs'
    as (req & Hreq & ->).
  rewrite has_active_requests_spec. simpl. split.
  - intros (r' & req' & Hr' & Hact).
    rewrite lookup_insert in Hr'. case_decide as Hr.
    + injection Hr' as <-. simpl in Hact. left.
      destruct Hstatus as [-> | [-> | ->]], Hact as [?|?]; done.
    + right. by exists r', req'.
  - intros [-> | (r' & req' & Hne & Hr' & Hact)].
    + exists r, (UserRequest.set_status UserRequest.APPROVED req).
      rewrite lookup_insert_eq. split; [done|by right].
    + exists r', req'. by rewrite lookup_insert_ne.
Qed.

Lemma settle_activity_witness :
  exists s',
    project Sample.world
      (Sample.event Sample.system 10 false (RejectRequest (Some "r1")))
      (Some Sample.stored_submission) = Ok s'
    /\ Submission.has_active_requests Sample.stored_submission = true
    /\ Submission.has_active_requests s' = false.
Proof.
  eexists. split; [reflexivity|]. split; [reflexivity|].
  apply not_true_iff_false. intros Hactive.
  pose proof (settle_activity Sample.world
    (Sample.event Sample.system 10 false (RejectRequest (Some "r1")))
    "r1" UserRequest.REJECTED Sample.stored_submission _
    (or_intror (or_introl (conj eq_refl eq_refl))) eq_refl) as Hiff.
  apply Hiff in Hactive as [Happroved|(r' & req' & Hne & Hr' & Hact)].
  { discriminate Happroved. }
  unfold Sample.stored_submission in Hr'. simpl in Hr'.
  rewrite lookup_insert in Hr'. case_decide; simplify_eq.
  - by destruct Hact.
  - by rewrite lookup_insert_ne, lookup_empty in Hr'.
Defined.

(** X14.  Projecting a [RequestWithdrawal] or a [RequestCrossList] files
    the request, PENDING, under its own identifier: [get_user_request]
    returns it, the submission has an active request from then on, and the
    other requests and the status of the submission are as before. *)
Theorem filed_request (x : Externals) (e : Event.t) (req : UserRequest.t)
    (s : Submission.t) :
  files e req x ->
  exists s',
    project x e (Some s) = Ok s'
    /\ get_user_request s' (request_id_of x req) = Ok req
    /\ UserRequest.status req = UserRequest.PENDING
    /\ Submission.has_active_requests s' = true
    /\ (forall r', r' ≠ request_id_of x req ->
          Submission.user_requests s' !! r'
          = Submission.user_requests s !! r')
    /\ Submission.status s' = Submission.status s
    /\ Submission.metadata s' = Submission.metadata s
    /\ Submission.processes s' = Submission.processes s
    /\ Submission.holds s' = Submission.holds s.
Proof.
  intros Hfiles. exists (add_request x req s).
  assert (UserRequest.status req = UserRequest.PENDING) as Hpending
    by by destruct Hfiles as [(? & _ & ->)|(? & _ & ->)].
  split; [by apply files_project|].
  split; [unfold get_user_request; simpl; by rewrite lookup_insert_eq|].
  split; [done|]. split.
  - apply has_active_requests_spec. exists (request_id_of x req), req.
    simpl. rewrite lookup_insert_eq. split; [done|by left].
  - split; [|done]. intros r' Hne. simpl. by rewrite lookup_insert_ne.
Qed.

Lemma filed_request_witness :
  exists s' req,
    project Sample.world Case.withdrawal_event (Some Case.published) = Ok s'
    /\ get_user_request s' "sha1(8:WithdrawalRequest:1234)" = Ok req
    /\ UserRequest.variant req = UserRequest.WithdrawalRequest (Some "oops")
    /\ Submission.has_active_requests s' = true.
Proof.
  destruct (filed_request Sample.world Case.withdrawal_event
              {| UserRequest.creator := Sample.jane;
                 UserRequest.created := 8;
                 UserRequest.updated := 8;
                 UserRequest.status := UserRequest.PENDING;
                 UserRequest.variant :=
                   UserRequest.WithdrawalRequest (Some "oops") |}
              Case.published)
    as (s' & Hs' & Hget & _ & Hactive & _).
  { left. by exists "oops". }
  exists s'. eexists. split; [exact Hs'|]. split; [exact Hget|].
  split; [reflexivity|exact Hactive].
Defined.

(** X15.  The categories of a cross-list request that has been filed are
    the categories of the [RequestCrossList] event, in the same order. *)
Theorem cross_list_categories (x : Externals) (e : Event.t)
    (cats : list string) (req : UserRequest.t) (s : Submission.t) :
  Event.command e = RequestCrossList cats ->
  files e req x ->
  request_categories req = Ok cats
  /\ exists s',
       project x e (Some s) = Ok s'
       /\ (get_user_request s' (request_id_of x req)
             ≫= (fun r => Ok (UserRequest.request_type r)))
          = Ok "CrossListClassificationRequest"%string.
Proof.
  intros Hcmd Hfiles.
  assert (req = {| UserRequest.creator := Event.creator e;
                   UserRequest.created := Event.created e;
                   UserRequest.updated := utc_now x;
                   UserRequest.status := UserRequest.PENDING;
                   UserRequest.variant :=
                     UserRequest.CrossListClassificationRequest
                       ((fun c => {| category := c |}) <$> cats) |}) as Hreq.
  { destruct Hfiles as [(? & Hc & _)|(cats' & Hc & ->)]; [congruence|].
    rewrite Hcmd in Hc. by injection Hc as <-. }
  split.
  - rewrite Hreq. unfold request_categories. simpl. f_equal.
    rewrite <- list_fmap_compose. apply list_fmap_id.
  - destruct (filed_request_lookup x e req s Hfiles) as (s' & Hs' & Hget).
    exists s'. split; [done|]. by rewrite Hget, Hreq.
Qed.

Lemma cross_list_categories_witness :
  exists req,
    files Case.cross_list_event req Sample.world
    /\ request_categories req = Ok ["cs.IR"; "cs.AI"]%string.
Proof.
  eexists. split.
  - right. eexists. split; reflexivity.
  - refine (proj1 (cross_list_categories Sample.world Case.cross_list_event
              ["cs.IR"; "cs.AI"]%string _ Case.published eq_refl _)).
    right. eexists. split; reflexivity.
Defined.

Lemma status_lists_count (l : list UserRequest.t) :
  (length (List.filter UserRequest.is_pending l)
   + length (List.filter UserRequest.is_approved l)
   + length (List.filter UserRequest.is_rejected l)
   + length (List.filter UserRequest.is_applied l) <= length l)%nat
  /\ (length (List.filter UserRequest.is_active l)
      = length (List.filter UserRequest.is_pending l)
        + length (List.filter UserRequest.is_approved l))%nat.
Proof.
  induction l as [|req l [IH1 IH2]]; simpl; [done|].
  unfold UserRequest.is_active, UserRequest.is_pending,
    UserRequest.is_approved, UserRequest.is_rejected,
    UserRequest.is_applied in *.
  destruct (String.eqb_spec (UserRequest.status req) UserRequest.PENDING)
    as [->|_]; simpl; [split; lia|].
  destruct (String.eqb_spec (UserRequest.status req) UserRequest.APPROVED)
    as [->|_]; simpl; [split; lia|].
  destruct (String.eqb_spec (UserRequest.status req) UserRequest.REJECTED)
    as [->|_]; simpl; [split; lia|].
  destruct (String.eqb (UserRequest.status req) UserRequest.APPLIED);
    simpl; split; lia.
Qed.

(** X16.  The request lists of a submission do not overlap: no request is
    counted in two of the pending, approved, rejected and applied lists, so
    together they are no longer than the number of requests; and the
    active requests are as many as the pending and the approved ones. *)
Theorem request_lists (s : Submission.t) :
  (length (pending_user_requests s) + length (approved_user_requests s)
   + length (rejected_user_requests s) + length (applied_user_requests s)
   <= size (Submission.user_requests s))%nat
  /\ (length (Submission.active_user_requests s)
      = length (pending_user_requests s)
        + length (approved_user_requests s))%nat
  /\ (Submission.has_active_requests s = true
      <-> pending_user_requests s ≠ [] \/ approved_user_requests s ≠ []).
Proof.
  pose proof (status_lists_count (Submission.user_request_values s))
    as [Hcount Hactive].
  unfold pending_user_requests, approved_user_requests,
    rejected_user_requests, applied_user_requests,
    Submission.has_active_requests, Submission.active_user_requests in *.
  split; [|split; [done|]].
  - unfold Submission.user_request_values in Hcount.
    by rewrite length_fmap, length_map_to_list in Hcount.
  - rewrite Nat.ltb_lt, Hactive.
    destruct (List.filter UserRequest.is_pending _),
      (List.filter UserRequest.is_approved _); simpl;
      split; try tauto; try lia; intros _; auto.
Qed.

(** X17.  A [RequestCrossList] does not validate on a submission that is
    not published: validation fails with [InvalidEvent]. *)
Theorem cross_list_needs_publication (x : Externals) (e : Event.t)
    (cats : list string) (s : Submission.t) :
  Event.command e = RequestCrossList cats ->
  Submission.status s ≠ Submission.PUBLISHED ->
  exists why, validate x e (Some s) = Raise (InvalidEvent e why).
Proof.
  intros Hcmd Hstatus. unfold validate, no_active_requests. rewrite Hcmd.
  destruct (Submission.has_active_requests s); simpl; [by eexists|].
  destruct (Submission.published s) eqn:Hp; simpl; [|by eexists].
  by apply published_spec in Hp.
Qed.

Lemma cross_list_needs_publication_witness :
  exists why,
    validate Sample.world Case.cross_list_event
      (Some (Sample.bare Submission.SUBMITTED ∅ [] ∅))
    = Raise (InvalidEvent Case.cross_list_event why).
Proof.
  apply (cross_list_needs_publication Sample.world Case.cross_list_event
           ["cs.IR"; "cs.AI"]%string); [reflexivity|discriminate].
Defined.

(* ===================================================================== *)
(** ** Further properties of [save] *)
(* ===================================================================== *)

Section MoreOnSave.

Variable x : Externals.

(** *** What a commit returns *)

Lemma commit_consequents_committed
    (commit_rec : Event.t -> option Submission.t -> Submission.t ->
                  Store -> Stored (Submission.t * list Event.t)) :
  (forall e b a st r st',
     commit_rec e b a st = (Ok r, st') ->
     forall c, c ∈ r.2 -> Event.committed c = true) ->
  forall cs cur st r st',
    commit_consequents x commit_rec cs cur st = (Ok r, st') ->
    forall c, c ∈ r.2 -> Event.committed c = true.
Proof.
  intros Hrec cs.
  induction cs as [|c cs IH]; simpl; intros cur st r st' Hrun.
  { injection Hrun as <- <-. intros c Hc. by apply elem_of_nil in Hc. }
  destruct (apply x c (Some cur)) as [after_c|[]]; try done.
  destruct (commit_rec c (Some cur) after_c st)
    as [[[cur' more]|err] st1] eqn:Hc; [|done].
  destruct (commit_consequents x commit_rec cs cur' st1)
    as [[[final rest]|err] st2] eqn:Hcs; [|done].
  injection Hrun as <- <-. simpl.
  intros c' Hc'. apply elem_of_cons in Hc' as [->|Hc']; [done|].
  apply elem_of_app in Hc' as [Hc'|Hc'].
  - by apply (Hrec _ _ _ _ _ _ Hc).
  - by apply (IH _ _ _ _ Hcs).
Qed.

Lemma commit_committed (depth : nat) (e : Event.t)
    (b : option Submission.t) (a : Submission.t) (st st' : Store)
    (r : Submission.t * list Event.t) :
  commit x depth e b a st = (Ok r, st') ->
  forall c, c ∈ r.2 -> Event.committed c = true.
Proof.
  revert e b a st st' r.
  induction depth as [|depth IH]; simpl; intros e b a st st' r Hrun; [done|].
  apply (commit_consequents_committed (commit x depth)
           (fun e1 b1 a1 st1 r1 st1' => IH e1 b1 a1 st1 st1' r1)
           _ _ _ _ _ Hrun).
Qed.

(** When the loop gets through, every event it has applied is marked as
    committed. *)
Lemma save_loop_all_committed (sid : option Z) (events : list Event.t)
    (before state : option Submission.t) (applied applied' : list Event.t)
    (st st' : Store) :
  (forall e, e ∈ applied -> Event.committed e = true) ->
  save_loop x sid events before applied st = (Ok (state, applied'), st') ->
  forall e, e ∈ applied' -> Event.committed e = true.
Proof.
  revert before applied st.
  induction events as [|e0 events IH]; simpl; intros before applied st Hall.
  { by intros [= <- <- <-]. }
  destruct (apply x _ before) as [after|err]; [|done].
  destruct (Event.committed (fill_submission_id sid e0)) eqn:Hc0.
  - apply IH. intros e He.
    apply elem_of_app in He as [He|He]; [by apply Hall|].
    by apply list_elem_of_singleton in He as ->.
  - destruct (commit x _ _ before after st) as [[[after' cons]|err] st1]
      eqn:Hcommit; [|done].
    apply IH. intros e He.
    apply elem_of_app in He as [He|He]; [by apply Hall|].
    apply elem_of_cons in He as [->|He]; [done|].
    by apply (commit_committed _ _ _ _ _ _ _ Hcommit).
Qed.

End MoreOnSave.

Lemma merged_members (x : Externals)
    (prior events : list Event.t) :
  iterates_members x ->
  forall m, m ∈ merge_events x prior events -> m ∈ prior ++ events.
Proof.
  intros Hiter m. unfold merge_events.
  rewrite elem_of_sorted, (Hiter _). apply elem_of_set_union.
Qed.

(** X18.  Merging keeps the history: every event that the set of prior
    events holds is in the merged list, and an event passed in that
    compares equal to one of them is represented by that prior event;
    the merged list has no two events that compare equal, and nothing that
    was not given. *)
Theorem merge_keeps_history (x : Externals) (prior events : list Event.t) :
  iterates_members x ->
  (forall p, p ∈ set_of x prior -> p ∈ merge_events x prior events)
  /\ (forall e, e ∈ prior ++ events ->
        exists m, m ∈ merge_events x prior events
                  /\ event_eq x e m = true)
  /\ (forall a b, a ∈ merge_events x prior events ->
                  b ∈ merge_events x prior events ->
                  event_eq x a b = true -> a = b)
  /\ (forall m, m ∈ merge_events x prior events -> m ∈ prior ++ events).
Proof.
  intros Hiter.
  assert (forall m, m ∈ merge_events x prior events
                    <-> m ∈ set_union x (set_of x prior) (set_of x events))
    as Hmem.
  { intros m. unfold merge_events. by rewrite elem_of_sorted, (Hiter _). }
  split; [|split; [|split]].
  - intros p Hp. apply Hmem. by apply add_all_mono.
  - intros e He. apply (set_union_holds x) in He.
    apply holds_spec in He as (m & Hm & Hem).
    exists m. by rewrite Hmem.
  - intros a b Ha Hb. apply Hmem in Ha, Hb. revert a b Ha Hb.
    apply (add_all_distinct x), set_of_distinct.
  - intros m Hm. by apply Hmem, elem_of_set_union in Hm.
Qed.

Lemma merge_keeps_history_witness :
  Event.set_submission_id (Some 1%Z)
    (Sample.event Sample.system 5 true (RejectRequest (Some "r0"%string)))
  ∈ merge_events Sample.world Sample.stored_history
      [Sample.event Sample.system 5 false
         (RejectRequest (Some "r0"%string))].
Proof.
  destruct (merge_keeps_history Sample.world Sample.stored_history
              [Sample.event Sample.system 5 false
                 (RejectRequest (Some "r0"%string))])
    as (Hkept & _).
  { by intros l. }
  apply Hkept. vm_compute. left.
Defined.

(** X19.  What [save] returns when it returns: the events are in order of
    creation, each is marked as committed, no two of them compare equal,
    and the log from before the call is a prefix of the log afterwards. *)
Theorem save_returns (x : Externals) (events : list Event.t)
    (sid : option Z) (st st' : Store) (after : Submission.t)
    (applied : list Event.t) :
  iterates_members x ->
  save x events sid st = (Ok (after, applied), st') ->
  Sorted (key_le Event.created) applied
  /\ (forall e, e ∈ applied -> Event.committed e = true)
  /\ (forall a b, a ∈ applied -> b ∈ applied ->
                  event_eq x a b = true -> a = b)
  /\ st `prefix_of` st'.
Proof.
  intros Hiter. unfold save.
  destruct events as [|first events']; [done|].
  destruct (starting_point x first sid st) as [[before prior]|]; [|done].
  pose proof (save_loop_prefix x sid
    (merge_events x prior (first :: events')) before [] st) as Hpre.
  destruct (save_loop x sid _ before [] st)
    as [[[[state|] all]|err] st1] eqn:Hloop; try done.
  intros [= -> <- <-]. simpl in Hpre.
  split; [apply sorted_Sorted|]. split; [|split; [|done]].
  - intros e He. rewrite elem_of_sorted, (Hiter _) in He.
    apply elem_of_set_of in He.
    apply (save_loop_all_committed x sid
             (merge_events x prior (first :: events')) before (Some after)
             [] all st st1); [|done..].
    intros e' He'. by apply elem_of_nil in He'.
  - apply (distinct_Permutation x (set_of x all)); [|apply set_of_distinct].
    by rewrite sorted_Permutation, (Hiter _).
Qed.

Lemma save_returns_witness :
  exists after st',
    save Case.world [Case.later_event] (Some 1%Z) []
    = (Ok (after,
           [Case.creation;
            Event.set_submission_id (Some 1%Z)
              (Sample.event Sample.jane 2 true CreateSubmission)]), st')
    /\ forall e,
         e ∈ [Case.creation;
              Event.set_submission_id (Some 1%Z)
                (Sample.event Sample.jane 2 true CreateSubmission)] ->
         Event.committed e = true.
Proof.
  eexists _, _. split; [vm_compute; reflexivity|].
  refine (proj1 (proj2 (save_returns Case.world [Case.later_event]
                          (Some 1%Z) [] _ _ _ _ _))).
  - by intros l.
  - vm_compute. reflexivity.
Defined.

(** X20.  When [save] is called with a submission id and returns, every
    event of the merged batch that was not committed is in the log, marked
    as committed and carrying a submission id: its own, or else the one
    passed. *)
Theorem save_stores (x : Externals) (events : list Event.t)
    (id : Z) (st st' : Store) (first : Event.t)
    (before : option Submission.t) (prior : list Event.t)
    (after : Submission.t) (applied : list Event.t) :
  head events = Some first ->
  starting_point x first (Some id) st = Ok (before, prior) ->
  save x events (Some id) st = (Ok (after, applied), st') ->
  forall e,
    e ∈ merge_events x prior events ->
    Event.committed e = false ->
    exists state,
      (Event.set_committed (fill_submission_id (Some id) e), state) ∈ st'
      /\ Event.submission_id (fill_submission_id (Some id) e)
         = Some (default id (Event.submission_id e)).
Proof.
  intros Hfirst Hstart. unfold save.
  destruct events as [|first' events']; [done|].
  injection Hfirst as ->. rewrite Hstart.
  destruct (save_loop x (Some id) _ before [] st)
    as [[[[state|] all]|err] st1] eqn:Hloop; try done.
  intros [= <- <- <-] e He Hc.
  destruct (save_loop_stored x (Some id) _ before [] st st1 _ Hloop e He Hc)
    as [s Hs].
  exists s. split; [done|].
  unfold fill_submission_id.
  by destruct (Event.submission_id e) as [own|] eqn:Hown.
Qed.

Lemma save_stores_witness :
  exists state,
    (Event.set_submission_id (Some 1%Z)
       (Sample.event Sample.jane 2 true CreateSubmission), state)
    ∈ snd (save Case.world [Case.later_event] (Some 1%Z) []).
Proof.
  destruct (save Case.world [Case.later_event] (Some 1%Z) [])
    as [r st'] eqn:Hsave.
  assert (exists after applied, r = Ok (after, applied)) as (a & l & ->).
  { vm_compute in Hsave. injection Hsave as <- _. by eexists _, _. }
  simpl.
  destruct (save_stores Case.world [Case.later_event] 1%Z [] st'
              Case.later_event (Some Case.created_submission)
              [Case.creation] a l eq_refl eq_refl Hsave Case.later_event)
    as (state & Hstored & _).
  - vm_compute. right. left.
  - reflexivity.
  - by exists state.
Defined.

(** X21.  Without a submission id nothing is loaded, so that a batch
    without a creation event cannot be saved: [save] raises, and the log is
    untouched.  It raises [ValueError] for no events, [NoSuchSubmission] if
    the first event has no submission id, and otherwise [AttributeError],
    from the first event applied looking into a submission that is not
    there. *)
Theorem save_without_submission (x : Externals) (events : list Event.t)
    (st : Store) :
  iterates_members x ->
  (forall e, e ∈ events -> Event.is_create e = false) ->
  save x events None st
  = (Raise (match events with
            | [] => Python ValueError
            | first :: _ =>
                if bool_decide (Event.submission_id first = None)
                then NoSuchSubmission
                else Python AttributeError
            end), st).
Proof.
  intros Hiter Hnone. unfold save.
  destruct events as [|first events']; [done|]. simpl.
  rewrite (Hnone first) by left. simpl.
  destruct (bool_decide (Event.submission_id first = None)); simpl; [done|].
  assert (forall e, e ∈ merge_events x [] (first :: events') ->
                    Event.is_create e = false) as Hmerged.
  { intros e He. apply Hnone.
    pose proof (merged_members x [] (first :: events')
                  Hiter e He) as Hin.
    by rewrite app_nil_l in Hin. }
  destruct (merge_events x [] (first :: events')) as [|e l] eqn:Hmerge.
  - exfalso.
    pose proof (set_union_holds x first [] (first :: events')) as Hheld.
    rewrite holds_spec in Hheld.
    destruct Hheld as (m & Hm & _); [left|].
    assert (m ∈ merge_events x [] (first :: events')) as Hm'
      by (unfold merge_events; by rewrite elem_of_sorted, (Hiter _)).
    rewrite Hmerge in Hm'. by apply elem_of_nil in Hm'.
  - simpl. specialize (Hmerged e ltac:(left)).
    replace (fill_submission_id None e) with e
      by (unfold fill_submission_id; by destruct (Event.submission_id e)).
    unfold apply, validate. unfold Event.is_create in Hmerged.
    by destruct (Event.command e).
Qed.

Lemma save_without_submission_witness :
  save Sample.world
    [Event.set_submission_id (Some 1%Z)
       (Sample.event Sample.system 10 false
          (ApproveRequest (Some "r1"%string)))]
    None []
  = (Raise (Python AttributeError), []).
Proof.
  apply (save_without_submission Sample.world
           [Event.set_submission_id (Some 1%Z)
              (Sample.event Sample.system 10 false
                 (ApproveRequest (Some "r1"%string)))] []).
  - by intros l.
  - intros e He. apply list_elem_of_singleton in He. by subst.
Defined.

(** X22.  The identifier of a request is made of the text of its
    creation time, its class and the identifier of its creator only.  So
    a request with these three in common with a request that the
    submission holds, in whatever status, takes its place when it is
    filed: the earlier request is gone and the number of requests is as
    before. *)
Theorem filed_request_replaces (x : Externals) (e : Event.t)
    (req old : UserRequest.t) (s : Submission.t) :
  files e req x ->
  isoformat x (UserRequest.created old)
    = isoformat x (UserRequest.created req) ->
  UserRequest.request_type old = UserRequest.request_type req ->
  agent_identifier (UserRequest.creator old)
    = agent_identifier (UserRequest.creator req) ->
  Submission.user_requests s !! request_id_of x old = Some old ->
  request_id_of x old = request_id_of x req
  /\ exists s',
       project x e (Some s) = Ok s'
       /\ get_user_request s' (request_id_of x old) = Ok req
       /\ size (Submission.user_requests s')
          = size (Submission.user_requests s)
       /\ forall r', r' ≠ request_id_of x old ->
            Submission.user_requests s' !! r'
            = Submission.user_requests s !! r'.
Proof.
  intros Hfiles Htime Htype Hcreator Hold.
  assert (request_id_of x old = request_id_of x req) as Hid.
  { unfold request_id_of, generate_request_id.
    by rewrite Htime, Htype, Hcreator. }
  split; [done|]. exists (add_request x req s).
  split; [by apply files_project|]. rewrite Hid in *.
  split; [unfold get_user_request; simpl; by rewrite lookup_insert_eq|].
  split.
  - simpl. apply map_size_insert_Some. by exists old.
  - intros r' Hne. simpl. by rewrite lookup_insert_ne.
Qed.

Lemma filed_request_replaces_witness :
  exists s',
    project Sample.world Case.withdrawal_event
      (Some Case.with_rejected_withdrawal) = Ok s'
    /\ (get_user_request s' "sha1(8:WithdrawalRequest:1234)"%string
          ≫= (fun r => Ok (UserRequest.status r)))
       = Ok UserRequest.PENDING
    /\ size (Submission.user_requests s') = 1%nat.
Proof.
  destruct (filed_request_replaces Sample.world Case.withdrawal_event
    {| UserRequest.creator := Sample.jane;
       UserRequest.created := 8;
       UserRequest.updated := 8;
       UserRequest.status := UserRequest.PENDING;
       UserRequest.variant :=
         UserRequest.WithdrawalRequest (Some "oops"%string) |}
    Case.rejected_withdrawal Case.with_rejected_withdrawal)
    as (_ & s' & Hs' & Hget & Hsize & _); try reflexivity.
  { left. by exists "oops"%string. }
  exists s'. split; [exact Hs'|]. split.
  - change (request_id_of Sample.world Case.rejected_withdrawal)
      with "sha1(8:WithdrawalRequest:1234)"%string in Hget.
    by rewrite Hget.
  - rewrite Hsize. reflexivity.
Defined.
